(** * Progressive context extension: hierarchy resolver, session cache,
      fragment truncation and the read hook

    A shallow embedding of [src/extensions/progressive-context.ts]
    (current revision, the first of the two revisions in that file) and
    the properties its specification states about it.  The last part
    adds the configuration, the [context] command and the older
    revision's cache, resolver and truncation, with further properties of
    the code.

    Conventions.
    - A JavaScript string is a [string]; its characters stand for UTF-16
      code units.  Only equality of characters is ever used.
    - A JavaScript [Map] iterates in insertion order, so [sessionCaches] is
      an association list with unique keys, oldest entry first.  A [Set] of
      paths is a duplicate-free list, oldest element first.
    - The file system is a pair of functions, [statSync] and
      [readFileSync], each of which may throw ([None]).
    - [console.log/warn/error] calls are collected in a log. *)

From Stdlib Require Import String Ascii ZArith Lia.
From stdpp Require Import base list strings pretty.

Open Scope string_scope.
Open Scope list_scope.
Open Scope nat_scope.

#[local] Set Warnings "-clear-no-such-hyp".

(** ** JavaScript strings *)

Module Js.

Definition nl : ascii := "010"%char.

(** [s.length] *)
Definition length (s : string) : nat := String.length s.

(** [s.slice(0, n)] for a non-negative [n]. *)
Fixpoint take (n : nat) (s : string) : string :=
  match n, s with
  | S n', String c s' => String c (take n' s')
  | _, _ => ""
  end.

Fixpoint drop (n : nat) (s : string) : string :=
  match n, s with
  | S n', String _ s' => drop n' s'
  | _, _ => s
  end.

(** [s.slice(0, e)]: a negative [e] counts from the end of [s]. *)
Definition slice0 (s : string) (e : Z) : string :=
  if (e <? 0)%Z then take (Z.to_nat (Z.of_nat (length s) + e)) s
  else take (Z.to_nat e) s.

(** [s.startsWith(p)] *)
Fixpoint startsWith (s p : string) : bool :=
  match p, s with
  | "", _ => true
  | String a p', String b s' => if decide (a = b) then startsWith s' p' else false
  | String _ _, "" => false
  end.

(** [s.lastIndexOf(p)]: the greatest index at which [p] occurs in [s],
    or [-1]. *)
Fixpoint lastIndexOf (s p : string) : Z :=
  match s with
  | "" => if startsWith "" p then 0 else (-1)
  | String _ s' =>
      let r := lastIndexOf s' p in
      if (0 <=? r)%Z then (r + 1)%Z
      else if startsWith s p then 0%Z else (-1)%Z
  end.

(** [xs.join(sep)] *)
Fixpoint join (sep : string) (xs : list string) : string :=
  match xs with
  | [] => ""
  | [x] => x
  | x :: rest => x +:+ sep +:+ join sep rest
  end.

End Js.

(** ** Insertion-ordered maps and sets, as [Map] and [Set] behave *)

Module JsMap.
Section Ops.
Context {V : Type}.

Definition t := list (string * V).

Definition keys (m : t) : list string := m.*1.

Definition size (m : t) : nat := length m.

Fixpoint get (k : string) (m : t) : option V :=
  match m with
  | [] => None
  | (k', v) :: m' => if decide (k' = k) then Some v else get k m'
  end.

Definition has (k : string) (m : t) : bool :=
  match get k m with Some _ => true | None => false end.

(** [m.delete(k)] *)
Fixpoint delete (k : string) (m : t) : t :=
  match m with
  | [] => []
  | (k', v) :: m' => if decide (k' = k) then m' else (k', v) :: delete k m'
  end.

(** [m.set(k, v)]: an existing key keeps its place, a new key goes
    last. *)
Fixpoint set (k : string) (v : V) (m : t) : t :=
  match m with
  | [] => [(k, v)]
  | (k', v') :: m' =>
      if decide (k' = k) then (k, v) :: m' else (k', v') :: set k v m'
  end.

(** [m.keys().next().value]: [None] stands for [undefined]. *)
Definition firstKey (m : t) : option string :=
  match m with
  | [] => None
  | (k, _) :: _ => Some k
  end.
End Ops.
Arguments t : clear implicits.
End JsMap.

Module JsSet.
Abbreviation t := (list string).

Definition has (x : string) (s : t) : bool := bool_decide (x ∈ s).

Definition add (x : string) (s : t) : t :=
  if has x s then s else s ++ [x].
End JsSet.

(** ** Constants of the extension *)

Definition AGENTS_FILENAMES : list string := ["AGENTS.md"; "CLAUDE.md"; "CLA.md"].

Definition CONTEXT_SEPARATOR : string :=
  String Js.nl (String Js.nl ("---" +:+ String Js.nl (String Js.nl ""))).

Definition MAX_CONTEXT_SIZE : Z := 2000.

Definition MAX_CACHED_SESSIONS : nat := 100.

Record ProgressiveContextConfig := {
  enabled : bool;
  maxContextSize : Z;
  filenames : list string;
  excludeRoot : bool
}.

Record SessionCache := { injectedPaths : JsSet.t }.

(** ** The session cache *)

Definition SessionCaches := JsMap.t SessionCache.

Definition emptySession : SessionCache := {| injectedPaths := [] |}.

(** [getSessionCache(sessionID)]: the table after the call, and the entry
    the call returns.  The returned object is the one stored in the table,
    so later additions to it are made in the table, see [addInjected]. *)
Definition getSessionCache (sessionID : string) (sessionCaches : SessionCaches)
    : SessionCaches * SessionCache :=
  let m1 :=
    if (MAX_CACHED_SESSIONS <=? JsMap.size sessionCaches)%nat
       && negb (JsMap.has sessionID sessionCaches)
    then match JsMap.firstKey sessionCaches with
         | Some firstKey => JsMap.delete firstKey sessionCaches
         | None => sessionCaches
         end
    else sessionCaches in
  let m2 :=
    if negb (JsMap.has sessionID m1) then JsMap.set sessionID emptySession m1
    else m1 in
  (m2, default emptySession (JsMap.get sessionID m2)).

(** [cache.injectedPaths.add(p)] on the entry of [sessionID]. *)
Definition addInjected (sessionID p : string) (m : SessionCaches) : SessionCaches :=
  match JsMap.get sessionID m with
  | Some c => JsMap.set sessionID {| injectedPaths := JsSet.add p (injectedPaths c) |} m
  | None => m
  end.

(** The [session_shutdown] handler. *)
Definition sessionShutdown (sessionID : string) (m : SessionCaches) : SessionCaches :=
  JsMap.delete sessionID m.

(** Everything the extension ever does to the table. *)
Inductive CacheOp :=
| OpGetOrCreate (sessionID : string)
| OpMarkDelivered (sessionID path : string)
| OpTerminate (sessionID : string).

Definition cacheStep (m : SessionCaches) (o : CacheOp) : SessionCaches :=
  match o with
  | OpGetOrCreate s => (getSessionCache s m).1
  | OpMarkDelivered s p => addInjected s p (getSessionCache s m).1
  | OpTerminate s => sessionShutdown s m
  end.

Definition cacheRun (ops : list CacheOp) : SessionCaches :=
  foldl cacheStep [] ops.

(** ** Node's [path] module, POSIX flavour

    These are the functions of [node:path] the extension calls.  They are
    not part of the repository; the definitions follow Node's
    [path.posix] implementation. *)

Module Path.

Definition slash : ascii := "/"%char.

Definition charAt (s : string) (i : nat) : option ascii := String.get i s.

Definition isSlashAt (s : string) (i : nat) : bool :=
  bool_decide (charAt s i = Some slash).

(** [path.isAbsolute(p)] *)
Definition isAbsolute (p : string) : bool := isSlashAt p 0.

(** [p.split("/")] *)
Fixpoint segments (p : string) : list string :=
  match p with
  | "" => [""]
  | String c p' =>
      if decide (c = slash) then "" :: segments p'
      else match segments p' with
           | seg :: rest => String c seg :: rest
           | [] => [String c ""]
           end
  end.

(** The segment stack of [normalizeString]: empty and ["."] segments are
    dropped, [".."] removes the segment before it, or is kept when
    there is none to remove and [allowAboveRoot] holds.  [acc] is the
    result so far, last segment first. *)
Fixpoint normalizeSegments (allowAboveRoot : bool) (acc segs : list string)
    : list string :=
  match segs with
  | [] => rev acc
  | seg :: rest =>
      if bool_decide (seg = "") || bool_decide (seg = ".") then
        normalizeSegments allowAboveRoot acc rest
      else if bool_decide (seg = "..") then
        match acc with
        | last :: acc' =>
            if bool_decide (last = "..") then
              normalizeSegments allowAboveRoot
                (if allowAboveRoot then ".." :: acc else acc) rest
            else normalizeSegments allowAboveRoot acc' rest
        | [] =>
            normalizeSegments allowAboveRoot
              (if allowAboveRoot then [".."] else []) rest
        end
      else normalizeSegments allowAboveRoot (seg :: acc) rest
  end.

Definition normalizeString (p : string) (allowAboveRoot : bool) : string :=
  Js.join "/" (normalizeSegments allowAboveRoot [] (segments p)).

(** [path.normalize(p)] *)
Definition normalize (p : string) : string :=
  if bool_decide (p = "") then "."
  else
    let isAbs := isAbsolute p in
    let trailingSeparator := isSlashAt p (String.length p - 1) in
    let q := normalizeString p (negb isAbs) in
    if bool_decide (q = "") then
      if isAbs then "/" else if trailingSeparator then "./" else "."
    else
      let q' := if trailingSeparator then q +:+ "/" else q in
      if isAbs then "/" +:+ q' else q'.

(** [path.join(a, b)] *)
Definition join (a b : string) : string :=
  if bool_decide (a = "") then
    if bool_decide (b = "") then "." else normalize b
  else if bool_decide (b = "") then normalize a
  else normalize (a +:+ "/" +:+ b).

(** The backward scan of [path.dirname]: indices [i], [i-1], ..., [1]
    are examined; the result is the index of the first slash met after
    a character that is not a slash. *)
Fixpoint dirnameScan (p : string) (i : nat) (matchedSlash : bool) : option nat :=
  match i with
  | 0 => None
  | S i' =>
      if isSlashAt p i then
        if matchedSlash then dirnameScan p i' true else Some i
      else dirnameScan p i' false
  end.

(** [path.dirname(p)] *)
Definition dirname (p : string) : string :=
  if bool_decide (p = "") then "."
  else
    let hasRoot := isSlashAt p 0 in
    match dirnameScan p (String.length p - 1) true with
    | None => if hasRoot then "/" else "."
    | Some e => if hasRoot && (e =? 1)%nat then "//" else Js.take e p
    end.

(** [path.resolve(p)], with [cwd] the value of [process.cwd()]. *)
Definition resolve (cwd p : string) : string :=
  let '(resolvedPath, resolvedAbsolute) :=
    if isAbsolute p then (p +:+ "/", true)
    else
      let tail := if bool_decide (p = "") then "" else p +:+ "/" in
      if bool_decide (cwd = "") then (tail, false)
      else (cwd +:+ "/" +:+ tail, isAbsolute cwd) in
  let q := normalizeString resolvedPath (negb resolvedAbsolute) in
  if resolvedAbsolute then "/" +:+ q
  else if bool_decide (q = "") then "." else q.

Fixpoint dropCommon (xs ys : list string) : list string * list string :=
  match xs, ys with
  | x :: xs', y :: ys' =>
      if bool_decide (x = y) then dropCommon xs' ys' else (xs, ys)
  | _, _ => (xs, ys)
  end.

Definition properSegments (p : string) : list string :=
  filter (λ seg, seg ≠ "") (segments p).

(** [path.relative(from, to)]: one [".."] for each segment of the
    resolved [from] below the common ancestor, then the segments of the
    resolved [to] below it. *)
Definition relative (cwd from to : string) : string :=
  if bool_decide (from = to) then ""
  else
    let '(up, down) :=
      dropCommon (properSegments (resolve cwd from))
                 (properSegments (resolve cwd to)) in
    Js.join "/" (replicate (length up) ".." ++ down).

End Path.

(** ** The file system and the console *)

Record FileSystem := {
  (** [fs.statSync(p).isFile()]; [None] when [statSync] throws. *)
  statSync : string → option bool;
  (** [fs.readFileSync(p, "utf-8")]; [None] when it throws. *)
  readFileSync : string → option string
}.

Inductive LogEntry :=
| ConsoleLog (msg : string)
| ConsoleWarn (msg : string)
| ConsoleError (msg : string).

(** One call of [fs.statSync], made while the walk stood in [probeDir]. *)
Record Probe := { probeDir : string; probePath : string }.

(** ** The hierarchy resolver *)

(** The [for (const filename of config.filenames)] loop in one directory:
    the match, if any, and the calls of [statSync] made. *)
Fixpoint probeDirectory (fs : FileSystem) (current : string) (names : list string)
    : option string * list Probe :=
  match names with
  | [] => (None, [])
  | filename :: rest =>
      let filePath := Path.join current filename in
      let here := {| probeDir := current; probePath := filePath |} in
      match statSync fs filePath with
      | Some true => (Some filePath, [here])
      | _ => let '(r, t) := probeDirectory fs current rest in (r, here :: t)
      end
  end.

(** The [while (true)] loop of [findAgentsFilesUp]; [None] when [fuel]
    iterations did not reach a [break]. *)
Fixpoint walkUp (fuel : nat) (fs : FileSystem) (rootDir : string)
    (config : ProgressiveContextConfig)
    (current : string) (found : list string) (probes : list Probe)
    : option (list string * list Probe) :=
  match fuel with
  | 0 => None
  | S fuel' =>
      let isAtRoot := bool_decide (current = rootDir) in
      let isAboveRoot :=
        negb (Js.startsWith current rootDir) && negb (bool_decide (current = rootDir)) in
      let '(found1, probes1) :=
        if negb isAtRoot || negb (excludeRoot config) then
          let '(r, t) := probeDirectory fs current (filenames config) in
          (match r with Some filePath => found ++ [filePath] | None => found end,
           probes ++ t)
        else (found, probes) in
      if isAtRoot || isAboveRoot then Some (found1, probes1)
      else
        let parent := Path.dirname current in
        if bool_decide (parent = current) then Some (found1, probes1)
        else walkUp fuel' fs rootDir config parent found1 probes1
  end.

(** [findAgentsFilesUp] run for at most [fuel] iterations: the returned
    array and the [statSync] calls made. *)
Definition findAgentsFilesUpFuel (fuel : nat) (fs : FileSystem)
    (startDir rootDir : string) (config : ProgressiveContextConfig)
    : option (list string * list Probe) :=
  match walkUp fuel fs rootDir config startDir [] [] with
  | Some (found, probes) => Some (rev found, probes)
  | None => None
  end.

(** A number of iterations that always suffices, see [walkUp_enough]. *)
Definition walkBound (startDir : string) : nat := String.length startDir + 3.

Definition findAgentsFilesUpTraced (fs : FileSystem)
    (startDir rootDir : string) (config : ProgressiveContextConfig)
    : list string * list Probe :=
  default ([], []) (findAgentsFilesUpFuel (walkBound startDir) fs startDir rootDir config).

Definition findAgentsFilesUp (fs : FileSystem)
    (startDir rootDir : string) (config : ProgressiveContextConfig) : list string :=
  (findAgentsFilesUpTraced fs startDir rootDir config).1.

(** ** Fragment size bounding *)

Definition paragraphBreak : string := String Js.nl (String Js.nl "").

Definition ruleLine : string := String Js.nl ("---" +:+ String Js.nl "").

Definition truncationNote (relativePath : string) : string :=
  String Js.nl (String Js.nl
    ("[Note: Content truncated. Read full file: " +:+ relativePath +:+ "]")).

(** [truncateContent].  [maxSize] is an integer; for integers of the size
    of a character count [lastBoundary > maxSize * 0.8] holds exactly when
    [4 * maxSize < 5 * lastBoundary]. *)
Definition truncateContent (cwd : string)
    (content : string) (maxSize : Z) (filePath rootDir : string) : string :=
  if (Z.of_nat (Js.length content) <=? maxSize)%Z then content
  else
    let truncated := Js.slice0 content maxSize in
    let lastBoundary :=
      Z.max (Js.lastIndexOf truncated paragraphBreak)
            (Js.lastIndexOf truncated ruleLine) in
    let relativePath := Path.relative cwd rootDir filePath in
    let note := truncationNote relativePath in
    if (4 * maxSize <? 5 * lastBoundary)%Z then
      Js.slice0 truncated lastBoundary +:+ note
    else truncated +:+ note.

(** ** The read hook and the manual tool *)

(** The value of [event.input?.path]. *)
Inductive JsValue :=
| JsUndefined
| JsString (s : string)
| JsOther.

Inductive ContentBlock :=
| TextContent (text : string)
| ImageContent (data mimeType : string).

Section Hook.
(** [event.details] is opaque to the extension. *)
Context {Details : Type}.

Record ToolResultEvent := {
  toolName : string;
  inputPath : JsValue;
  content : list ContentBlock;
  details : Details;
  isError : bool
}.

Record ToolResult := {
  resContent : list ContentBlock;
  resDetails : Details;
  resIsError : bool
}.

(** What one run of the handler leaves behind: the value it returns
    ([None] for [undefined], the host then keeps the result as it is),
    the session table and the console output. *)
Record HookOutcome := {
  returned : option ToolResult;
  caches : SessionCaches;
  console : list LogEntry
}.

(** The host's environment: file system, [process.cwd()],
    [pi.workspaceRoot] (the empty string when it is not set) and the
    loaded configuration. *)
Record Host := {
  hostFs : FileSystem;
  cwd : string;
  workspaceRoot : string;
  config : ProgressiveContextConfig
}.

(** [pi.workspaceRoot || process.cwd()] *)
Definition rootDirOf (h : Host) : string :=
  if bool_decide (workspaceRoot h = "") then cwd h else workspaceRoot h.

Definition injectedOf (sessionID : string) (m : SessionCaches) : JsSet.t :=
  injectedPaths (default emptySession (JsMap.get sessionID m)).

Definition directoryHeader (relativePath truncated : string) : string :=
  "[Directory Context: " +:+ relativePath +:+ "]" +:+ String Js.nl truncated.

Definition readErrorMessage (agentsPath : string) : string :=
  "[progressive-context] Error reading " +:+ agentsPath +:+ ":".

(** The [for (const agentsPath of agentsFiles)] loop of the hook. *)
Fixpoint injectLoop (h : Host) (resolvedRoot sessionID : string)
    (agentsFiles : list string)
    (m : SessionCaches) (contexts : list string) (log : list LogEntry)
    : SessionCaches * list string * list LogEntry :=
  match agentsFiles with
  | [] => (m, contexts, log)
  | agentsPath :: rest =>
      if JsSet.has agentsPath (injectedOf sessionID m) then
        injectLoop h resolvedRoot sessionID rest m contexts log
      else
        match readFileSync (hostFs h) agentsPath with
        | Some text =>
            let truncated :=
              truncateContent (cwd h) text (maxContextSize (config h))
                agentsPath resolvedRoot in
            let relativePath := Path.relative (cwd h) resolvedRoot agentsPath in
            injectLoop h resolvedRoot sessionID rest
              (addInjected sessionID agentsPath m)
              (contexts ++ [directoryHeader relativePath truncated]) log
        | None =>
            injectLoop h resolvedRoot sessionID rest m contexts
              (log ++ [ConsoleError (readErrorMessage agentsPath)])
        end
  end.

Definition outsideWarning (filePath : string) : string :=
  "[progressive-context] Path " +:+ filePath +:+ " outside workspace, skipping".

Definition injectedMessage (n : nat) (filePath : string) : string :=
  "[progressive-context] Injected " +:+ pretty n +:+ " context file(s) for " +:+ filePath.

(** The [pi.on("tool_result", ...)] handler. *)
Definition onToolResult (h : Host) (sessionID : string)
    (event : ToolResultEvent) (m : SessionCaches) : HookOutcome :=
  let unchanged := {| returned := None; caches := m; console := [] |} in
  if negb (bool_decide (toolName event = "read")) then unchanged
  else
    match inputPath event with
    | JsString filePath =>
        if bool_decide (filePath = "") then unchanged
        else
          let rootDir := rootDirOf h in
          let absolutePath :=
            if Path.isAbsolute filePath then filePath
            else Path.join rootDir filePath in
          let resolvedPath := Path.resolve (cwd h) absolutePath in
          let resolvedRoot := Path.resolve (cwd h) rootDir in
          if negb (Js.startsWith resolvedPath resolvedRoot) then
            {| returned := None; caches := m;
               console := [ConsoleWarn (outsideWarning filePath)] |}
          else
            let dir := Path.dirname absolutePath in
            let m1 := (getSessionCache sessionID m).1 in
            let agentsFiles := findAgentsFilesUp (hostFs h) dir resolvedRoot (config h) in
            if (length agentsFiles =? 0)%nat then
              {| returned := None; caches := m1; console := [] |}
            else
              let '(m2, contexts, log) :=
                injectLoop h resolvedRoot sessionID agentsFiles m1 [] [] in
              if (0 <? length contexts)%nat then
                let contextBlock :=
                  CONTEXT_SEPARATOR +:+ Js.join CONTEXT_SEPARATOR contexts in
                {| returned :=
                     Some {| resContent := content event ++ [TextContent contextBlock];
                             resDetails := details event;
                             resIsError := isError event |};
                   caches := m2;
                   console :=
                     log ++ [ConsoleLog (injectedMessage (length contexts) filePath)] |}
              else {| returned := None; caches := m2; console := log |}
    | _ => unchanged
    end.

(** What the [inject_context] tool returns: [toolIsError] is [None]
    where the object has no [isError] field. *)
Record ToolReturn := {
  toolContent : list ContentBlock;
  toolIsError : option bool
}.

Definition manualEntry (h : Host) (resolvedRoot agentsPath : string) : string :=
  match readFileSync (hostFs h) agentsPath with
  | Some text =>
      let truncated :=
        truncateContent (cwd h) text (maxContextSize (config h))
          agentsPath resolvedRoot in
      "[" +:+ Path.relative (cwd h) resolvedRoot agentsPath +:+ "]:"
        +:+ String Js.nl truncated
  | None => "[Error reading " +:+ agentsPath +:+ "]"
  end.

Definition withRoot (c : ProgressiveContextConfig) : ProgressiveContextConfig :=
  {| enabled := enabled c; maxContextSize := maxContextSize c;
     filenames := filenames c; excludeRoot := false |}.

(** The [execute] function of the [inject_context] tool. *)
Definition injectContext (h : Host) (dir : string) : ToolReturn :=
  let rootDir := rootDirOf h in
  let resolvedRoot := Path.resolve (cwd h) rootDir in
  let absoluteDir :=
    if Path.isAbsolute dir then Path.resolve (cwd h) dir
    else Path.join resolvedRoot dir in
  if negb (Js.startsWith absoluteDir resolvedRoot) then
    {| toolContent :=
         [TextContent ("Error: Directory " +:+ dir +:+ " is outside the workspace")];
       toolIsError := Some true |}
  else
    let agentsFiles :=
      findAgentsFilesUp (hostFs h) absoluteDir resolvedRoot (withRoot (config h)) in
    if (length agentsFiles =? 0)%nat then
      {| toolContent :=
           [TextContent ("No AGENTS.md files found in " +:+ dir +:+ " or parent directories")];
         toolIsError := None |}
    else
      {| toolContent :=
           [TextContent
              (Js.join CONTEXT_SEPARATOR (manualEntry h resolvedRoot <$> agentsFiles))];
         toolIsError := None |}.

End Hook.

Arguments ToolResultEvent : clear implicits.
Arguments ToolResult : clear implicits.
Arguments HookOutcome : clear implicits.

(** The table has unique keys and respects the capacity. *)
Definition tableOk (m : SessionCaches) : Prop :=
  NoDup (JsMap.keys m) ∧ JsMap.size m ≤ MAX_CACHED_SESSIONS.

(** [n] distinct session identifiers. *)
Definition sampleSessions (n : nat) : list string :=
  (λ i, "session-" +:+ pretty i) <$> seq 0 n.

(** ** Boundaries of the truncation, for the statements below *)

(** [p] occurs in [s] at index [i]. *)
Definition occursAt (s p : string) (i : nat) : bool :=
  Js.startsWith (Js.drop i s) p.

(** The boundaries [truncateContent] searches for: two line breaks, or a
    line break, three hyphens and a line break. *)
Definition boundaryAt (s : string) (i : nat) : bool :=
  occursAt s paragraphBreak i || occursAt s ruleLine i.

Fixpoint skipHyphens (s : string) : nat * string :=
  match s with
  | String c s' =>
      if decide (c = "-"%char) then
        let '(n, rest) := skipHyphens s' in (S n, rest)
      else (0, s)
  | "" => (0, "")
  end.

(** A line of three or more hyphens starts after the line break at index
    [i] of [s], and ends with a line break. *)
Definition longRuleAt (s : string) (i : nat) : bool :=
  match Js.drop i s with
  | String c s' =>
      bool_decide (c = Js.nl) &&
      let '(n, rest) := skipHyphens s' in
      (3 <=? n) && Js.startsWith rest (String Js.nl "")
  | "" => false
  end.

(** The boundaries as the specification words them. *)
Definition specBoundaryAt (s : string) (i : nat) : bool :=
  occursAt s paragraphBreak i || longRuleAt s i.

(** Forty characters of text, a line of four hyphens in the last fifth
    of a window of forty. *)
Definition longRuleSample : string :=
  "aaaaaaaaaaaaaaaaaaaaaaaaaaaaaaaaa" +:+ String Js.nl ("----" +:+ String Js.nl "bbbbbbbbbb").

(** Thirty-three characters of text, then a line of exactly three
    hyphens, which starts in the last fifth of a window of forty. *)
Definition ruleSample : string :=
  "aaaaaaaaaaaaaaaaaaaaaaaaaaaaaaaaa" +:+ String Js.nl ("---" +:+ String Js.nl "bbbbbbbbbb").

(** ** The ancestor walk, for the statements below *)

(** The loop of [findAgentsFilesUp] leaves [current] without moving on. *)
Definition walkStops (rootDir current : string) : bool :=
  bool_decide (current = rootDir) || negb (Js.startsWith current rootDir)
  || bool_decide (Path.dirname current = current).

(** The directories the loop stands in, the start directory first. *)
Fixpoint visitedDirs (fuel : nat) (rootDir current : string) : list string :=
  match fuel with
  | 0 => []
  | S fuel' =>
      current ::
        (if walkStops rootDir current then []
         else visitedDirs fuel' rootDir (Path.dirname current))
  end.

(** The loop tests the filenames in directory [d]. *)
Definition isTested (config : ProgressiveContextConfig) (rootDir d : string) : bool :=
  negb (bool_decide (d = rootDir)) || negb (excludeRoot config).

(** A bound on the number of directories above [p]. *)
Definition walkMeasure (p : string) : nat :=
  if bool_decide (p = ".") || bool_decide (p = "/") then 0 else String.length p + 1.

(** The call of [statSync] for [filename] in directory [d]. *)
Definition mkProbe (d filename : string) : Probe :=
  {| probeDir := d; probePath := Path.join d filename |}.

(** The match of directory [d], and the calls made there. *)
Definition dirMatch (fs : FileSystem) (config : ProgressiveContextConfig) (d : string)
    : option string :=
  (probeDirectory fs d (filenames config)).1.

Definition dirProbes (fs : FileSystem) (config : ProgressiveContextConfig) (d : string)
    : list Probe :=
  (probeDirectory fs d (filenames config)).2.

(** The directories in which the loop tests the filenames. *)
Definition testedDirs (config : ProgressiveContextConfig) (fuel : nat)
    (rootDir startDir : string) : list string :=
  filter (λ d, Is_true (isTested config rootDir d)) (visitedDirs fuel rootDir startDir).

(** A file system in which exactly the paths of [files] are regular
    files, each with its own path as content, and everything else is
    absent. *)
Definition sampleFs (files : list string) : FileSystem :=
  {| statSync p := if bool_decide (p ∈ files) then Some true else None;
     readFileSync p := if bool_decide (p ∈ files) then Some p else None |}.

Definition sampleConfig (exclude : bool) : ProgressiveContextConfig :=
  {| enabled := true; maxContextSize := MAX_CONTEXT_SIZE;
     filenames := AGENTS_FILENAMES; excludeRoot := exclude |}.

(** ** The read hook, for the statements below *)

(** The fragment paths one run of the loop delivers: those of
    [agentsFiles], in order, that are not in [seen], not repeated, and
    whose read succeeds. *)
Fixpoint deliverable (fs : FileSystem) (seen : JsSet.t) (agentsFiles : list string)
    : list string :=
  match agentsFiles with
  | [] => []
  | p :: rest =>
      if JsSet.has p seen then deliverable fs seen rest
      else match readFileSync fs p with
           | Some _ => p :: deliverable fs (seen ++ [p]) rest
           | None => deliverable fs seen rest
           end
  end.

(** The paths of one run whose read is attempted and throws. *)
Fixpoint unreadable (fs : FileSystem) (seen : JsSet.t) (agentsFiles : list string)
    : list string :=
  match agentsFiles with
  | [] => []
  | p :: rest =>
      if JsSet.has p seen then unreadable fs seen rest
      else match readFileSync fs p with
           | Some _ => unreadable fs (seen ++ [p]) rest
           | None => p :: unreadable fs seen rest
           end
  end.

(** The text injected for the fragment at [agentsPath]. *)
Definition fragmentText (h : Host) (resolvedRoot agentsPath : string) : string :=
  directoryHeader (Path.relative (cwd h) resolvedRoot agentsPath)
    (truncateContent (cwd h) (default "" (readFileSync (hostFs h) agentsPath))
       (maxContextSize (config h)) agentsPath resolvedRoot).

(** The value of [absolutePath] in the hook. *)
Definition absolutePathOf (h : Host) (filePath : string) : string :=
  if Path.isAbsolute filePath then filePath else Path.join (rootDirOf h) filePath.

(** The test the hook makes before it proceeds. *)
Definition hookAccepts (h : Host) (filePath : string) : bool :=
  Js.startsWith (Path.resolve (cwd h) (absolutePathOf h filePath))
    (Path.resolve (cwd h) (rootDirOf h)).

(** The test the manual tool makes before it proceeds. *)
Definition toolAccepts (h : Host) (dir : string) : bool :=
  Js.startsWith
    (if Path.isAbsolute dir then Path.resolve (cwd h) dir
     else Path.join (Path.resolve (cwd h) (rootDirOf h)) dir)
    (Path.resolve (cwd h) (rootDirOf h)).

(** The fragments the hook resolves for [filePath]. *)
Definition hookFragments (h : Host) (filePath : string) : list string :=
  findAgentsFilesUp (hostFs h) (Path.dirname (absolutePathOf h filePath))
    (Path.resolve (cwd h) (rootDirOf h)) (config h).

(** [p] lies in directory [root] or below it: the segments of [root]
    are the first segments of [p]. *)
Definition isWithin (root p : string) : bool :=
  bool_decide (Path.properSegments root `prefix_of` Path.properSegments p).

Definition readEvent (filePath : string) (blocks : list ContentBlock)
    : ToolResultEvent unit :=
  {| toolName := "read"; inputPath := JsString filePath; content := blocks;
     details := (); isError := false |}.

Definition sampleHost (root : string) (files : list string) (exclude : bool) : Host :=
  {| hostFs := sampleFs files; cwd := root; workspaceRoot := root;
     config := sampleConfig exclude |}.

(** The fragment paths one run of the hook accumulates: none unless the
    event is a read with a usable path that passes the path test. *)
Definition accumulated {Details} (h : Host) (sessionID : string)
    (event : ToolResultEvent Details) (m : SessionCaches) : list string :=
  match inputPath event with
  | JsString filePath =>
      if bool_decide (toolName event = "read") && negb (bool_decide (filePath = ""))
         && hookAccepts h filePath
      then deliverable (hostFs h)
             (injectedOf sessionID (getSessionCache sessionID m).1)
             (hookFragments h filePath)
      else []
  | _ => []
  end.

(** The result the hook returns when it has accumulated [fragments]. *)
Definition augmented {Details} (event : ToolResultEvent Details)
    (fragments : list string) : ToolResult Details :=
  {| resContent :=
       content event ++
       [TextContent (CONTEXT_SEPARATOR +:+ Js.join CONTEXT_SEPARATOR fragments)];
     resDetails := details event;
     resIsError := isError event |}.

(** As [sampleHost], but reading a path of [broken] throws. *)
Definition flakyHost (root : string) (files broken : list string) (exclude : bool) : Host :=
  {| hostFs :=
       {| statSync p := if bool_decide (p ∈ files) then Some true else None;
          readFileSync p :=
            if bool_decide (p ∈ broken) then None
            else if bool_decide (p ∈ files) then Some p else None |};
     cwd := root; workspaceRoot := root; config := sampleConfig exclude |}.

(** ** Canonical paths, for the statements below *)

Fixpoint hasSlash (s : string) : bool :=
  match s with
  | "" => false
  | String c s' => bool_decide (c = Path.slash) || hasSlash s'
  end.

(** A name of a file or directory: not empty, not ["."] or [".."], and
    without a separator. *)
Definition plainName (seg : string) : bool :=
  negb (bool_decide (seg = "")) && negb (bool_decide (seg = "."))
  && negb (bool_decide (seg = "..")) && negb (hasSlash seg).

(** The absolute canonical path with the given segments: ["/"] for none,
    ["/a/b"] for [["a"; "b"]]. *)
Definition ofSegments (segs : list string) : string := "/" +:+ Js.join "/" segs.

(** The prefixes of [rev r], the longest first, the empty one last. *)
Fixpoint prefixesOfRev (r : list string) : list (list string) :=
  match r with
  | [] => [[]]
  | x :: r' => rev (x :: r') :: prefixesOfRev r'
  end.

(** ** Further definitions, for the statements of the last part *)

(** The event is a read with a usable path that passes the path test. *)
Definition hookRuns {Details} (h : Host) (event : ToolResultEvent Details) : bool :=
  match inputPath event with
  | JsString filePath =>
      bool_decide (toolName event = "read") && negb (bool_decide (filePath = ""))
      && hookAccepts h filePath
  | _ => false
  end.

(** The value of [pi.config.progressiveContext]; each field may be
    absent. *)
Record UserConfig := {
  userEnabled : option bool;
  userMaxContextSize : option Z;
  userFilenames : option (list string);
  userExcludeRoot : option bool
}.

(** The configuration [progressiveContextExtension] builds when it is
    loaded: the defaults, each replaced by the user's value when there is
    one, and the user's filenames appended to the built-in ones.  [None]
    stands for an absent [pi.config.progressiveContext]. *)
Definition loadConfig (user : option UserConfig) : ProgressiveContextConfig :=
  match user with
  | None =>
      {| enabled := true; maxContextSize := MAX_CONTEXT_SIZE;
         filenames := AGENTS_FILENAMES; excludeRoot := true |}
  | Some u =>
      {| enabled := default true (userEnabled u);
         maxContextSize := default MAX_CONTEXT_SIZE (userMaxContextSize u);
         filenames :=
           match userFilenames u with
           | Some names => AGENTS_FILENAMES ++ names
           | None => AGENTS_FILENAMES
           end;
         excludeRoot := default true (userExcludeRoot u) |}
  end.

Definition noContextMessage : string :=
  "No progressive context injected yet this session."
  +:+ String Js.nl (String Js.nl
        "Context is injected automatically when you read files in directories with AGENTS.md files.").

(** The handler of the [context] command: its reply and the table it
    leaves. *)
Definition contextCommand (h : Host) (sessionID : string) (m : SessionCaches)
    : string * SessionCaches :=
  let '(m', cache) := getSessionCache sessionID m in
  let rootDir := rootDirOf h in
  if length (injectedPaths cache) =? 0 then (noContextMessage, m')
  else
    let paths :=
      Js.join (String Js.nl "")
        ((λ p, "  - " +:+ Path.relative (cwd h) rootDir p) <$> injectedPaths cache) in
    ("Injected context files this session:" +:+ String Js.nl paths
       +:+ String Js.nl (String Js.nl "These will persist until the session ends."),
     m').

(** A file system in which the paths of [files] are regular files, the
    paths of [dirs] are directories, and everything else is absent. *)
Definition sampleFsWithDirs (files dirs : list string) : FileSystem :=
  {| statSync p :=
       if bool_decide (p ∈ files) then Some true
       else if bool_decide (p ∈ dirs) then Some false else None;
     readFileSync p := if bool_decide (p ∈ files) then Some p else None |}.

(** ** The older revision of the file *)

Module Older.

Definition getSessionCache (sessionID : string) (sessionCaches : SessionCaches)
    : SessionCaches * SessionCache :=
  let m :=
    if negb (JsMap.has sessionID sessionCaches)
    then JsMap.set sessionID emptySession sessionCaches
    else sessionCaches in
  (m, default emptySession (JsMap.get sessionID m)).

(** [fs.existsSync(p)] *)
Definition existsSync (fs : FileSystem) (p : string) : bool :=
  match statSync fs p with Some _ => true | None => false end.

Fixpoint probeDirectory (fs : FileSystem) (current : string) (names : list string)
    : option string :=
  match names with
  | [] => None
  | filename :: rest =>
      let filePath := Path.join current filename in
      if existsSync fs filePath then Some filePath
      else probeDirectory fs current rest
  end.

Fixpoint walkUp (fuel : nat) (fs : FileSystem) (rootDir : string)
    (config : ProgressiveContextConfig) (current : string) (found : list string)
    : option (list string) :=
  match fuel with
  | 0 => None
  | S fuel' =>
      let isRootOrAbove :=
        bool_decide (current = rootDir) || negb (Js.startsWith current rootDir) in
      if excludeRoot config && isRootOrAbove then Some found
      else
        let found1 :=
          match probeDirectory fs current (filenames config) with
          | Some filePath => found ++ [filePath]
          | None => found
          end in
        if isRootOrAbove then Some found1
        else
          let parent := Path.dirname current in
          if bool_decide (parent = current) then Some found1
          else walkUp fuel' fs rootDir config parent found1
  end.

Definition findAgentsFilesUpFuel (fuel : nat) (fs : FileSystem)
    (startDir rootDir : string) (config : ProgressiveContextConfig)
    : option (list string) :=
  match walkUp fuel fs rootDir config startDir [] with
  | Some found => Some (rev found)
  | None => None
  end.

Definition findAgentsFilesUp (fs : FileSystem)
    (startDir rootDir : string) (config : ProgressiveContextConfig) : list string :=
  default [] (findAgentsFilesUpFuel (walkBound startDir) fs startDir rootDir config).

Definition truncationNote : string :=
  String Js.nl (String Js.nl "[Note: Content truncated. Full file: read directly]").

Definition truncateContent (content : string) (maxSize : Z) : string :=
  if (Z.of_nat (Js.length content) <=? maxSize)%Z then content
  else
    let truncated := Js.slice0 content maxSize in
    let lastBoundary :=
      Z.max (Js.lastIndexOf truncated paragraphBreak)
            (Js.lastIndexOf truncated ruleLine) in
    if (4 * maxSize <? 5 * lastBoundary)%Z then
      Js.slice0 truncated lastBoundary +:+ truncationNote
    else truncated +:+ truncationNote.

(** The older revision tests the filenames in [d]. *)
Definition isTested (config : ProgressiveContextConfig) (rootDir d : string) : bool :=
  negb (excludeRoot config
        && (bool_decide (d = rootDir) || negb (Js.startsWith d rootDir))).

End Older.
(** * Properties *)

(** ** Insertion-ordered maps *)

Section JsMapFacts.
Context {V : Type}.
Implicit Types (m : JsMap.t V) (k : string) (v : V).

Lemma has_true_iff k m : JsMap.has k m = true ↔ k ∈ JsMap.keys m.
Proof.
  unfold JsMap.has, JsMap.keys. induction m as [|[k' v'] m IH]; csimpl.
  - split; [discriminate | intros H; inversion H].
  - destruct (decide (k' = k)) as [->|Hne].
    + split; [intros _; left | reflexivity].
    + rewrite IH. split; [intros H; by right | intros H].
      by apply elem_of_cons in H as [->|H].
Qed.

Lemma has_false_iff k m : JsMap.has k m = false ↔ k ∉ JsMap.keys m.
Proof. rewrite <- has_true_iff. destruct (JsMap.has k m); naive_solver. Qed.

Lemma get_None_iff k m : JsMap.get k m = None ↔ k ∉ JsMap.keys m.
Proof.
  rewrite <- has_false_iff. unfold JsMap.has.
  destruct (JsMap.get k m); naive_solver.
Qed.

Lemma keys_set_new k v m :
  k ∉ JsMap.keys m → JsMap.keys (JsMap.set k v m) = JsMap.keys m ++ [k].
Proof.
  unfold JsMap.keys. induction m as [|[k' v'] m IH]; csimpl; [done|].
  intros Hn. apply not_elem_of_cons in Hn as [Hne Hn].
  destruct (decide (k' = k)); [congruence|]. csimpl. by rewrite IH.
Qed.

Lemma keys_set_old k v m :
  k ∈ JsMap.keys m → JsMap.keys (JsMap.set k v m) = JsMap.keys m.
Proof.
  unfold JsMap.keys. induction m as [|[k' v'] m IH]; csimpl.
  - intros H; inversion H.
  - intros H. destruct (decide (k' = k)) as [->|Hne]; [done|].
    csimpl. f_equal. apply IH. by apply elem_of_cons in H as [->|H].
Qed.

Lemma get_set_eq k v m : JsMap.get k (JsMap.set k v m) = Some v.
Proof.
  induction m as [|[k' v'] m IH]; csimpl.
  - by rewrite decide_True.
  - destruct (decide (k' = k)); csimpl; [by rewrite decide_True|].
    by rewrite decide_False.
Qed.

Lemma get_set_ne k k' v m :
  k ≠ k' → JsMap.get k' (JsMap.set k v m) = JsMap.get k' m.
Proof.
  intros Hne. induction m as [|[k0 v0] m IH]; csimpl.
  - by rewrite decide_False.
  - destruct (decide (k0 = k)) as [->|Hk]; csimpl.
    + by rewrite !decide_False.
    + by rewrite IH.
Qed.

Lemma keys_delete_head k v m : JsMap.delete k ((k, v) :: m) = m.
Proof. csimpl. by rewrite decide_True. Qed.

Lemma size_delete_le k m : JsMap.size (JsMap.delete k m) ≤ JsMap.size m.
Proof.
  unfold JsMap.size. induction m as [|[k' v'] m IH]; csimpl; [lia|].
  destruct (decide (k' = k)); csimpl; lia.
Qed.

Lemma keys_delete_sub k k0 m :
  k0 ∈ JsMap.keys (JsMap.delete k m) → k0 ∈ JsMap.keys m.
Proof.
  unfold JsMap.keys. induction m as [|[k' v'] m IH]; csimpl; [done|].
  destruct (decide (k' = k)); csimpl.
  - by right.
  - intros [->|H]%elem_of_cons; [left | right; by apply IH].
Qed.

Lemma NoDup_keys_delete k m :
  NoDup (JsMap.keys m) → NoDup (JsMap.keys (JsMap.delete k m)).
Proof.
  unfold JsMap.keys. induction m as [|[k' v'] m IH]; csimpl; [done|].
  intros [Hn Hd]%NoDup_cons. destruct (decide (k' = k)); csimpl; [done|].
  apply NoDup_cons. split; [|by apply IH].
  intros Hin. apply Hn. by apply (keys_delete_sub k k' m).
Qed.

Lemma size_keys m : JsMap.size m = length (JsMap.keys m).
Proof. unfold JsMap.size, JsMap.keys. by rewrite length_fmap. Qed.
End JsMapFacts.

Section JsMapFacts2.
Context {V : Type}.
Implicit Types (m : JsMap.t V) (k : string) (v : V).

Lemma get_delete_ne k k' m :
  k ≠ k' → JsMap.get k' (JsMap.delete k m) = JsMap.get k' m.
Proof.
  intros Hne. induction m as [|[k0 v0] m IH]; csimpl; [done|].
  destruct (decide (k0 = k)) as [->|Hk]; csimpl.
  - by rewrite decide_False.
  - by rewrite IH.
Qed.
End JsMapFacts2.

Lemma getSessionCache_keys sid m :
  NoDup (JsMap.keys m) →
  JsMap.keys (getSessionCache sid m).1 =
    if JsMap.has sid m then JsMap.keys m
    else if MAX_CACHED_SESSIONS <=? JsMap.size m
         then tail (JsMap.keys m) ++ [sid]
         else JsMap.keys m ++ [sid].
Proof.
  intros Hnd. unfold getSessionCache. cbn [fst].
  destruct (JsMap.has sid m) eqn:Hhas.
  - rewrite andb_false_r. cbn [negb]. by rewrite Hhas.
  - rewrite andb_true_r. cbn [negb].
    destruct (MAX_CACHED_SESSIONS <=? JsMap.size m) eqn:Hfull.
    + destruct m as [|[k0 v0] m]; [done|].
      cbn [JsMap.firstKey]. rewrite keys_delete_head.
      apply has_false_iff in Hhas.
      assert (sid ∉ JsMap.keys m) as Hm by (intros ?; apply Hhas; by right).
      pose proof Hm as Hm'. apply has_false_iff in Hm'. rewrite Hm'. cbn [negb].
      by rewrite keys_set_new.
    + rewrite Hhas. cbn [negb]. apply has_false_iff in Hhas.
      by rewrite keys_set_new.
Qed.

Lemma getSessionCache_tableOk sid m :
  tableOk m → tableOk (getSessionCache sid m).1.
Proof.
  intros [Hnd Hsz]. unfold tableOk.
  rewrite size_keys, (getSessionCache_keys sid m Hnd).
  rewrite size_keys in Hsz.
  destruct (JsMap.has sid m) eqn:Hhas; [done|].
  apply has_false_iff in Hhas.
  destruct (MAX_CACHED_SESSIONS <=? JsMap.size m) eqn:Hfull.
  - destruct (JsMap.keys m) as [|k0 ks] eqn:Hk; csimpl in *.
    + split; [apply NoDup_singleton | unfold MAX_CACHED_SESSIONS; lia].
    + apply NoDup_cons in Hnd as [_ Hnd]. split.
      * apply NoDup_app. split_and!; [done| |apply NoDup_singleton].
        intros x Hx ->%list_elem_of_singleton. apply Hhas. by right.
      * rewrite length_app. csimpl. lia.
  - apply Nat.leb_gt in Hfull. rewrite size_keys in Hfull. split.
    + apply NoDup_app. split_and!; [done| |apply NoDup_singleton].
      by intros x Hx ->%list_elem_of_singleton.
    + rewrite length_app. csimpl. lia.
Qed.

Lemma addInjected_keys sid p m :
  JsMap.keys (addInjected sid p m) = JsMap.keys m.
Proof.
  unfold addInjected. destruct (JsMap.get sid m) eqn:Hg; [|done].
  apply keys_set_old. apply has_true_iff. unfold JsMap.has. by rewrite Hg.
Qed.

Lemma cacheStep_tableOk m o : tableOk m → tableOk (cacheStep m o).
Proof.
  intros Hok. destruct o as [s|s p|s]; cbn [cacheStep].
  - by apply getSessionCache_tableOk.
  - apply (getSessionCache_tableOk s) in Hok. unfold tableOk in *.
    by rewrite size_keys, addInjected_keys, <- size_keys.
  - destruct Hok as [Hnd Hsz]. split.
    + by apply NoDup_keys_delete.
    + etrans; [apply size_delete_le | done].
Qed.

Lemma foldl_cacheStep_tableOk ops m :
  tableOk m → tableOk (foldl cacheStep m ops).
Proof.
  revert m. induction ops as [|o ops IH]; intros m Hok; csimpl; [done|].
  apply IH. by apply cacheStep_tableOk.
Qed.

Lemma cacheRun_tableOk ops : tableOk (cacheRun ops).
Proof.
  apply foldl_cacheStep_tableOk. split; [apply NoDup_nil_2 | csimpl; lia].
Qed.

Lemma getSessionCache_fresh sid m :
  JsMap.has sid m = false → (getSessionCache sid m).2 = emptySession.
Proof.
  intros Hhas. unfold getSessionCache. cbn [snd].
  set (m1 := if _ : bool then _ else m).
  assert (JsMap.has sid m1 = false) as H1.
  { subst m1. destruct (_ && _); [|done].
    destruct m as [|[k0 v0] m]; [done|]. cbn [JsMap.firstKey].
    rewrite keys_delete_head. apply has_false_iff. apply has_false_iff in Hhas.
    intros ?; apply Hhas. by right. }
  rewrite H1. cbn [negb]. by rewrite get_set_eq.
Qed.

Lemma getSessionCache_other sid k m :
  k ≠ sid → JsMap.firstKey m ≠ Some k →
  JsMap.get k (getSessionCache sid m).1 = JsMap.get k m.
Proof.
  intros Hne Hfirst. unfold getSessionCache. cbn [fst].
  set (m1 := if _ : bool then _ else m).
  assert (JsMap.get k m1 = JsMap.get k m) as H1.
  { subst m1. destruct (_ && _); [|done].
    destruct (JsMap.firstKey m) as [k0|] eqn:Hk0; [|done].
    apply get_delete_ne. congruence. }
  destruct (JsMap.has sid m1); cbn [negb]; [exact H1|].
  rewrite get_set_ne; [exact H1 | congruence].
Qed.

Lemma getOrCreate_distinct ids m :
  tableOk m → NoDup (JsMap.keys m ++ ids) →
  JsMap.keys (foldl cacheStep m (OpGetOrCreate <$> ids)) =
    drop (length (JsMap.keys m ++ ids) - MAX_CACHED_SESSIONS) (JsMap.keys m ++ ids).
Proof.
  revert m. induction ids as [|sid ids IH]; intros m Hok Hnd.
  - cbn [fmap list_fmap foldl]. rewrite app_nil_r.
    destruct Hok as [_ Hsz]. rewrite size_keys in Hsz.
    by replace (_ - _) with 0 by lia.
  - cbn [fmap list_fmap foldl cacheStep].
    pose proof (getSessionCache_tableOk sid m Hok) as Hok'.
    destruct Hok as [Hndm Hsz].
    pose proof (getSessionCache_keys sid m Hndm) as Hkeys.
    assert (JsMap.has sid m = false) as Hhas.
    { apply has_false_iff. apply NoDup_app in Hnd as (_ & Hdis & _).
      intros Hin. apply (Hdis _ Hin). by left. }
    rewrite Hhas in Hkeys. rewrite size_keys in Hkeys, Hsz.
    set (m' := (getSessionCache sid m).1) in *.
    destruct (MAX_CACHED_SESSIONS <=? length (JsMap.keys m)) eqn:Hfull.
    + apply Nat.leb_le in Hfull.
      destruct (JsMap.keys m) as [|k0 ks].
      { cbn [length] in Hfull. unfold MAX_CACHED_SESSIONS in Hfull. lia. }
      cbn [tail] in Hkeys. cbn [length] in Hfull, Hsz.
      rewrite <- app_comm_cons in Hnd. apply NoDup_cons in Hnd as [_ Hnd].
      rewrite IH; [|done|].
      * rewrite Hkeys, <- !app_assoc, <- !app_comm_cons. cbn [app].
        cbn [length].
        assert (MAX_CACHED_SESSIONS ≤ length (ks ++ sid :: ids)) as Hle
          by (rewrite length_app; cbn [length]; lia).
        replace (S (length (ks ++ sid :: ids)) - MAX_CACHED_SESSIONS)
          with (S (length (ks ++ sid :: ids) - MAX_CACHED_SESSIONS)) by lia.
        done.
      * by rewrite Hkeys, <- app_assoc.
    + rewrite IH; [|done|].
      * by rewrite Hkeys, <- !app_assoc.
      * by rewrite Hkeys, <- app_assoc.
Qed.

Lemma firstKey_keys {V} (m : JsMap.t V) : JsMap.firstKey m = head (JsMap.keys m).
Proof. by destruct m as [|[k v] m]. Qed.

(** ** The session cache

    C1.  After any sequence of operations on the session table (lookups
    that create, deliveries, terminations) at most [MAX_CACHED_SESSIONS]
    sessions are tracked.  When the table is full, a lookup of an untracked
    session removes exactly the oldest tracked session, keeps every other
    entry as it was and puts the new session last; a later lookup of the
    removed session returns an empty set.  After lookups of distinct
    identifiers only the last [MAX_CACHED_SESSIONS] of them are tracked,
    and a lookup of any earlier one starts from an empty set. *)
Theorem session_cache_capacity (ops : list CacheOp) :
  let m := cacheRun ops in
  JsMap.size m ≤ MAX_CACHED_SESSIONS ∧
  (∀ sid,
     JsMap.size m = MAX_CACHED_SESSIONS → JsMap.has sid m = false →
     ∃ oldest rest,
       JsMap.keys m = oldest :: rest ∧
       JsMap.keys (getSessionCache sid m).1 = rest ++ [sid] ∧
       JsMap.has oldest (getSessionCache sid m).1 = false ∧
       (∀ k, k ∈ rest → JsMap.get k (getSessionCache sid m).1 = JsMap.get k m) ∧
       injectedPaths (getSessionCache oldest (getSessionCache sid m).1).2 = []) ∧
  (∀ ids,
     ops = OpGetOrCreate <$> ids → NoDup ids →
     JsMap.keys m = drop (length ids - MAX_CACHED_SESSIONS) ids ∧
     ∀ sid, sid ∈ take (length ids - MAX_CACHED_SESSIONS) ids →
       JsMap.has sid m = false ∧ injectedPaths (getSessionCache sid m).2 = []).
Proof.
  intros m. pose proof (cacheRun_tableOk ops) as [Hnd Hsz]. fold m in Hnd, Hsz.
  split_and!; [done| |].
  - intros sid Hfull Hhas.
    pose proof (getSessionCache_keys sid m Hnd) as Hkeys.
    rewrite Hhas, Hfull, Nat.leb_refl in Hkeys.
    destruct (JsMap.keys m) as [|oldest rest] eqn:Hk.
    { rewrite size_keys, Hk in Hfull. discriminate Hfull. }
    cbn [tail] in Hkeys. apply NoDup_cons in Hnd as [Hfresh Hnd].
    apply has_false_iff in Hhas. rewrite Hk in Hhas.
    apply not_elem_of_cons in Hhas as [Hne Hhas].
    assert (JsMap.has oldest (getSessionCache sid m).1 = false) as Hgone.
    { apply has_false_iff. rewrite Hkeys.
      intros [?|?%list_elem_of_singleton]%elem_of_app; congruence. }
    exists oldest, rest. split_and!; [done|done|done| |].
    + intros k Hin. apply getSessionCache_other.
      * intros ->. done.
      * rewrite firstKey_keys, Hk. cbn [head]. intros [= ->]. done.
    + by rewrite getSessionCache_fresh.
  - intros ids -> Hids.
    pose proof (getOrCreate_distinct ids []) as Hd. cbn [JsMap.keys fmap list_fmap app] in Hd.
    assert (JsMap.keys m = drop (length ids - MAX_CACHED_SESSIONS) ids) as Hkeys.
    { apply Hd; [|done]. split; [apply NoDup_nil_2 | cbn; lia]. }
    split; [done|]. intros sid Hin.
    assert (JsMap.has sid m = false) as Hhas.
    { apply has_false_iff. rewrite Hkeys. intros Hin'.
      rewrite <- (take_drop (length ids - MAX_CACHED_SESSIONS) ids) in Hids.
      apply NoDup_app in Hids as (_ & Hdis & _). by apply (Hdis sid). }
    split; [done|]. by rewrite getSessionCache_fresh.
Qed.


Lemma session_cache_capacity_witness :
  (∃ oldest rest,
     JsMap.keys (cacheRun (OpGetOrCreate <$> sampleSessions 100)) = oldest :: rest ∧
     JsMap.keys (getSessionCache "new" (cacheRun (OpGetOrCreate <$> sampleSessions 100))).1
       = rest ++ ["new"]) ∧
  JsMap.has "session-0" (cacheRun (OpGetOrCreate <$> sampleSessions 101)) = false.
Proof.
  split.
  - destruct (session_cache_capacity (OpGetOrCreate <$> sampleSessions 100))
      as (_ & H & _).
    destruct (H "new") as (oldest & rest & H1 & H2 & _);
      [vm_compute; reflexivity | vm_compute; reflexivity |].
    exists oldest, rest. split; assumption.
  - destruct (session_cache_capacity (OpGetOrCreate <$> sampleSessions 101))
      as (_ & _ & H).
    destruct (H (sampleSessions 101)) as [_ H'];
      [reflexivity | apply (bool_decide_unpack _); vm_compute; exact I |].
    apply H'. vm_compute. left.
Defined.

(** ** JavaScript strings *)

Section JsStringFacts.
Implicit Types (s p t : string) (n i : nat).

Lemma append_cons c s t : String c s +:+ t = String c (s +:+ t).
Proof. reflexivity. Qed.

Lemma append_nil_l s : "" +:+ s = s.
Proof. reflexivity. Qed.

Lemma length_append s t : Js.length (s +:+ t) = Js.length s + Js.length t.
Proof.
  unfold Js.length. induction s as [|c s IH]; [done|].
  rewrite append_cons. cbn. by rewrite IH.
Qed.

Lemma take_drop s n : Js.take n s +:+ Js.drop n s = s.
Proof.
  revert n. induction s as [|c s IH]; intros [|n]; cbn; try done.
  by rewrite append_cons, IH.
Qed.

Lemma length_take s n : Js.length (Js.take n s) = n `min` Js.length s.
Proof.
  unfold Js.length. revert n. induction s as [|c s IH]; intros [|n]; cbn; try done.
  by rewrite IH.
Qed.

Lemma take_all s n : Js.length s ≤ n → Js.take n s = s.
Proof.
  unfold Js.length. revert n. induction s as [|c s IH]; intros [|n]; cbn; try done.
  - lia.
  - intros H. rewrite IH; [done | lia].
Qed.

Lemma take_take s n i : i ≤ n → Js.take i (Js.take n s) = Js.take i s.
Proof.
  revert n i. induction s as [|c s IH]; intros [|n] [|i]; cbn; try done.
  - lia.
  - intros H. rewrite IH; [done | lia].
Qed.

Lemma drop_nil n : Js.drop n "" = "".
Proof. by destruct n. Qed.

Lemma append_nil_r s : s +:+ "" = s.
Proof. induction s as [|c s IH]; [done|]. by rewrite append_cons, IH. Qed.

Lemma append_assoc s t p : (s +:+ t) +:+ p = s +:+ (t +:+ p).
Proof. induction s as [|c s IH]; [done|]. by rewrite !append_cons, IH. Qed.

Lemma startsWith_iff s p : Js.startsWith s p = true ↔ ∃ t, s = p +:+ t.
Proof.
  revert s. induction p as [|a p IH]; intros s.
  - split; [intros _; exists s; reflexivity | intros _; by destruct s].
  - destruct s as [|b s]; cbn [Js.startsWith].
    + split; [done | intros [t Ht]; discriminate Ht].
    + destruct (decide (a = b)) as [->|Hne].
      * rewrite IH. split; intros [t Ht]; exists t.
        -- by rewrite append_cons, Ht.
        -- rewrite append_cons in Ht. by injection Ht.
      * split; [done | intros [t Ht]].
        rewrite append_cons in Ht. injection Ht. congruence.
Qed.

Lemma occursAt_nil p i : p ≠ "" → occursAt "" p i = false.
Proof. unfold occursAt. rewrite drop_nil. by destruct p. Qed.

Lemma occursAt_length s p i :
  p ≠ "" → occursAt s p i = true → i + Js.length p ≤ Js.length s.
Proof.
  unfold occursAt. intros Hp [t Ht]%startsWith_iff.
  pose proof (f_equal Js.length (take_drop s i)) as Hlen.
  rewrite length_append, length_take, Ht, length_append in Hlen.
  assert (0 < Js.length p) by (destruct p; [done | cbn; lia]).
  lia.
Qed.

(** [lastIndexOf] returns the last occurrence, or [-1] when there is
    none. *)
Lemma lastIndexOf_spec s p :
  p ≠ "" →
  (Js.lastIndexOf s p = (-1)%Z ∧ ∀ i, occursAt s p i = false) ∨
  (∃ r, Js.lastIndexOf s p = Z.of_nat r ∧ occursAt s p r = true ∧
        ∀ i, r < i → occursAt s p i = false).
Proof.
  intros Hp. induction s as [|c s IH].
  - left. split; [by destruct p | intros i; by apply occursAt_nil].
  - cbn [Js.lastIndexOf]. destruct IH as [[Hr Hnone]|(r & Hr & Hocc & Hlast)].
    + rewrite Hr. cbn [Z.leb Z.compare].
      destruct (Js.startsWith (String c s) p) eqn:Hs.
      * right. exists 0. split_and!; [done|done|].
        intros [|i] Hi; [lia|]. apply Hnone.
      * left. split; [done|]. intros [|i]; [done|]. apply Hnone.
    + rewrite Hr. destruct (0 <=? Z.of_nat r)%Z eqn:Hle; [|lia].
      right. exists (S r). split_and!; [lia|done|].
      intros [|i] Hi; [lia|]. apply Hlast. lia.
Qed.
End JsStringFacts.

(** ** Fragment size bounding *)

Lemma slice0_nonneg s e : (0 ≤ e)%Z → Js.slice0 s e = Js.take (Z.to_nat e) s.
Proof. intros H. unfold Js.slice0. destruct (e <? 0)%Z eqn:E; [lia | done]. Qed.

Lemma paragraphBreak_nonempty : paragraphBreak ≠ "".
Proof. done. Qed.

Lemma ruleLine_nonempty : ruleLine ≠ "".
Proof. done. Qed.

(** The index [truncateContent] computes is the last boundary of the
    window, or [-1] when the window has none. *)
Lemma lastBoundary_spec t :
  let L := Z.max (Js.lastIndexOf t paragraphBreak) (Js.lastIndexOf t ruleLine) in
  (L = (-1)%Z ∧ ∀ i, boundaryAt t i = false) ∨
  (∃ r, L = Z.of_nat r ∧ boundaryAt t r = true ∧ r < Js.length t ∧
        ∀ i, r < i → boundaryAt t i = false).
Proof.
  intros L. subst L. unfold boundaryAt.
  destruct (lastIndexOf_spec t _ paragraphBreak_nonempty)
    as [[Ha Hna]|(a & Ha & Hoa & Hla)];
  destruct (lastIndexOf_spec t _ ruleLine_nonempty)
    as [[Hb Hnb]|(b & Hb & Hob & Hlb)]; rewrite Ha, Hb.
  - left. split; [done|]. intros i. by rewrite Hna, Hnb.
  - right. exists b. split_and!; [lia | by rewrite Hob, orb_true_r | |].
    + apply occursAt_length in Hob; [|done]. cbn in Hob. lia.
    + intros i Hi. by rewrite Hna, Hlb.
  - right. exists a. split_and!; [lia | by rewrite Hoa | |].
    + apply occursAt_length in Hoa; [|done]. cbn in Hoa. lia.
    + intros i Hi. by rewrite Hla, Hnb.
  - right. exists (a `max` b). split_and!; [lia | | |].
    + destruct (Nat.max_spec a b) as [[_ ->]|[_ ->]];
        [by rewrite Hob, orb_true_r | by rewrite Hoa].
    + apply occursAt_length in Hoa; [|done]. apply occursAt_length in Hob; [|done].
      cbn in Hoa, Hob. lia.
    + intros i Hi. rewrite Hla, Hlb; [done | lia | lia].
Qed.

(** Where a content longer than [maxSize] is cut. *)
Lemma truncateContent_long cwd content maxSize filePath rootDir :
  (0 ≤ maxSize)%Z → (maxSize < Z.of_nat (Js.length content))%Z →
  let t := Js.take (Z.to_nat maxSize) content in
  let L := Z.max (Js.lastIndexOf t paragraphBreak) (Js.lastIndexOf t ruleLine) in
  truncateContent cwd content maxSize filePath rootDir =
    Js.take (if (4 * maxSize <? 5 * L)%Z then Z.to_nat L else Z.to_nat maxSize) content
      +:+ truncationNote (Path.relative cwd rootDir filePath).
Proof.
  intros Hmax Hlong t L. unfold truncateContent.
  destruct (Z.of_nat (Js.length content) <=? maxSize)%Z eqn:E; [lia|]. clear E.
  rewrite (slice0_nonneg content) by done. fold t. fold L.
  destruct (4 * maxSize <? 5 * L)%Z eqn:E; [|done].
  destruct (lastBoundary_spec t) as [[HL _]|(r & HL & _ & Hr & _)]; fold L in HL.
  - lia.
  - rewrite slice0_nonneg by lia. rewrite HL, Nat2Z.id. subst t.
    rewrite take_take; [done|]. rewrite length_take in Hr. lia.
Qed.

(** C4.  For a positive [maxSize], a content of at most [maxSize]
    characters is returned unchanged.  A longer content is returned as a
    prefix of the content followed by the note; the note depends on the
    file's path only, and the result is no longer than [maxSize] plus the
    length of the note. *)
Theorem truncateContent_bounded cwd content maxSize filePath rootDir :
  (0 < maxSize)%Z →
  let result := truncateContent cwd content maxSize filePath rootDir in
  let note := truncationNote (Path.relative cwd rootDir filePath) in
  ((Z.of_nat (Js.length content) ≤ maxSize)%Z → result = content) ∧
  ((maxSize < Z.of_nat (Js.length content))%Z →
     ∃ kept rest,
       result = kept +:+ note ∧ content = kept +:+ rest ∧
       (Z.of_nat (Js.length result) ≤ maxSize + Z.of_nat (Js.length note))%Z).
Proof.
  intros Hpos result note. split.
  - intros Hshort. subst result. unfold truncateContent.
    destruct (Z.of_nat (Js.length content) <=? maxSize)%Z eqn:E; [done | lia].
  - intros Hlong. subst result.
    rewrite truncateContent_long by lia. fold note.
    set (k := if _ : bool then _ else _).
    exists (Js.take k content), (Js.drop k content). split_and!; [done | by rewrite take_drop |].
    rewrite length_append, length_take.
    assert (k ≤ Z.to_nat maxSize) as Hk; [|lia].
    subst k. destruct (_ <? _)%Z eqn:E; [|done].
    destruct (lastBoundary_spec (Js.take (Z.to_nat maxSize) content))
      as [[HL _]|(r & HL & _ & Hr & _)]; rewrite HL in *; [lia|].
    rewrite length_take in Hr. lia.
Qed.

Lemma truncateContent_bounded_witness :
  ∃ kept rest,
    truncateContent "/" "0123456789abcdefghij" 8 "/proj/src/AGENTS.md" "/proj"
      = kept +:+ truncationNote "src/AGENTS.md" ∧
    "0123456789abcdefghij" = kept +:+ rest.
Proof.
  destruct (truncateContent_bounded "/" "0123456789abcdefghij" 8
              "/proj/src/AGENTS.md" "/proj") as [_ H]; [lia|].
  destruct H as (kept & rest & H1 & H2 & _); [vm_compute; reflexivity|].
  exists kept, rest. split; assumption.
Defined.

Lemma drop_all s n : Js.length s ≤ n → Js.drop n s = "".
Proof.
  unfold Js.length. revert n. induction s as [|c s IH]; intros [|n]; cbn; try done.
  - lia.
  - intros H. apply IH. lia.
Qed.

(** C3, as the code has it.  A content longer than [maxSize] is cut to a
    window of [maxSize] characters.  A boundary is two consecutive line
    breaks, or a line of exactly three hyphens between two line breaks.
    When the window holds a boundary starting beyond four fifths of
    [maxSize], the content is cut at the last boundary of the window;
    when it holds none there, the content is cut at [maxSize]. *)
Theorem truncateContent_cut cwd content maxSize filePath rootDir :
  (0 ≤ maxSize)%Z → (maxSize < Z.of_nat (Js.length content))%Z →
  let window := Js.take (Z.to_nat maxSize) content in
  let note := truncationNote (Path.relative cwd rootDir filePath) in
  let result := truncateContent cwd content maxSize filePath rootDir in
  (∀ i, boundaryAt window i = true → (4 * maxSize < 5 * Z.of_nat i)%Z →
     ∃ j, i ≤ j ∧ boundaryAt window j = true ∧
          (∀ j', j < j' → boundaryAt window j' = false) ∧
          result = Js.take j content +:+ note) ∧
  ((∀ i, boundaryAt window i = true → (5 * Z.of_nat i ≤ 4 * maxSize)%Z) →
     result = window +:+ note).
Proof.
  intros Hmax Hlong window note result. subst result.
  rewrite truncateContent_long by done. fold window note.
  destruct (lastBoundary_spec window) as [[HL Hnone]|(r & HL & Hr & _ & Hlast)];
    rewrite HL.
  - split.
    + intros i Hi. by rewrite Hnone in Hi.
    + intros _. destruct (_ <? _)%Z eqn:E; [lia | done].
  - split.
    + intros i Hi Hfar.
      assert (i ≤ r) as Hir.
      { destruct (decide (i ≤ r)) as [|Hn]; [done|].
        rewrite Hlast in Hi by lia. done. }
      destruct (_ <? _)%Z eqn:E; [|lia].
      exists r. rewrite Nat2Z.id. done.
    + intros Hnear. specialize (Hnear r Hr).
      destruct (_ <? _)%Z eqn:E; [lia | done].
Qed.

Lemma truncateContent_cut_witness :
  truncateContent "/" ruleSample 40 "/proj/AGENTS.md" "/proj"
    = Js.take 33 ruleSample +:+ truncationNote "AGENTS.md" ∧
  truncateContent "/" "0123456789abcdefghij" 8 "/proj/src/AGENTS.md" "/proj"
    = "01234567" +:+ truncationNote "src/AGENTS.md".
Proof.
  split.
  - destruct (truncateContent_cut "/" ruleSample 40 "/proj/AGENTS.md" "/proj")
      as [H _]; [lia | vm_compute; reflexivity |].
    destruct (H 33) as (j & Hij & Hj & _ & Hcut); [vm_compute; reflexivity | lia |].
    assert (j = 33) as ->; [|exact Hcut].
    destruct (decide (j < 40)) as [Hlt|Hge].
    + do 33 (destruct j as [|j]; [lia|]).
      do 7 (destruct j as [|j];
            [vm_compute in Hj; first [discriminate Hj | reflexivity]|]).
      lia.
    + unfold boundaryAt, occursAt in Hj. rewrite drop_all in Hj.
      * discriminate Hj.
      * vm_compute. lia.
  - destruct (truncateContent_cut "/" "0123456789abcdefghij" 8
                "/proj/src/AGENTS.md" "/proj") as [_ H];
      [lia | vm_compute; reflexivity |].
    apply H. intros i Hi. exfalso.
    destruct (decide (i < 8)) as [Hlt|Hge].
    + do 8 (destruct i as [|i]; [vm_compute in Hi; discriminate Hi|]). lia.
    + unfold boundaryAt, occursAt in Hi. rewrite drop_all in Hi.
      * discriminate Hi.
      * vm_compute. lia.
Defined.

(** C3, as the specification words it, fails: a line of four hyphens in
    the last fifth of the window is a boundary in the specification's
    sense, the only one of this window, and the content is cut at
    [maxSize], not at that line. *)
Lemma truncateContent_long_rule_counterexample :
  specBoundaryAt (Js.take 40 longRuleSample) 33 = true ∧ (4 * 40 < 5 * 33)%Z ∧
  (∀ j, specBoundaryAt (Js.take 40 longRuleSample) j = true → j = 33) ∧
  truncateContent "/" longRuleSample 40 "/proj/AGENTS.md" "/proj"
    = Js.take 40 longRuleSample +:+ truncationNote "AGENTS.md" ∧
  truncateContent "/" longRuleSample 40 "/proj/AGENTS.md" "/proj"
    ≠ Js.take 33 longRuleSample +:+ truncationNote "AGENTS.md".
Proof.
  split_and!.
  - vm_compute. reflexivity.
  - lia.
  - intros j Hj. destruct (decide (j < 40)) as [Hlt|Hge].
    + do 40 (destruct j as [|j];
             [vm_compute in Hj; first [discriminate Hj | reflexivity]|]).
      lia.
    + unfold specBoundaryAt, occursAt, longRuleAt in Hj.
      rewrite drop_all in Hj; [discriminate Hj | vm_compute; lia].
  - vm_compute. reflexivity.
  - vm_compute. discriminate.
Qed.

(** ** The hierarchy resolver *)

Lemma dirnameScan_bounds p i b e :
  Path.dirnameScan p i b = Some e → 1 ≤ e ≤ i ∧ (b = true → e < i).
Proof.
  revert b. induction i as [|i IH]; intros b; cbn [Path.dirnameScan]; [done|].
  destruct (Path.isSlashAt p (S i)).
  - destruct b.
    + intros H. apply IH in H as [H1 H2]. specialize (H2 eq_refl). lia.
    + intros [= <-]. split; [lia | done].
  - intros H. apply IH in H as [H1 _]. lia.
Qed.

(** Every step to the parent directory that does not stay in place
    decreases [walkMeasure]. *)
Lemma dirname_measure p :
  Path.dirname p ≠ p → walkMeasure (Path.dirname p) < walkMeasure p.
Proof.
  unfold Path.dirname. case_bool_decide as Hp.
  { subst p. intros _. vm_compute. lia. }
  assert (0 < String.length p) as Hlen by (destruct p; [done | cbn; lia]).
  destruct (Path.dirnameScan p (String.length p - 1) true) as [e|] eqn:Hscan.
  - apply dirnameScan_bounds in Hscan as [He1 He2]. specialize (He2 eq_refl).
    assert (walkMeasure p = String.length p + 1) as ->.
    { unfold walkMeasure. destruct p as [|a [|b p]]; cbn in *; try lia.
      repeat case_bool_decide; simplify_eq; done. }
    destruct (Path.isSlashAt p 0 && (e =? 1)) eqn:Hroot.
    + intros _. apply andb_true_iff in Hroot as [_ He%Nat.eqb_eq].
      change (walkMeasure "//") with 3. lia.
    + intros _. unfold walkMeasure. destruct (_ || _); [lia|].
      pose proof (length_take p e) as Ht. unfold Js.length in Ht. lia.
  - destruct (Path.isSlashAt p 0) eqn:Hroot; intros Hne.
    + change (walkMeasure "/") with 0. unfold walkMeasure.
      repeat case_bool_decide; simplify_eq; cbn [orb]; first [lia | done].
    + change (walkMeasure ".") with 0. unfold walkMeasure.
      repeat case_bool_decide; simplify_eq; cbn [orb]; first [lia | done].
Qed.

Lemma walkMeasure_bound p : walkMeasure p < walkBound p.
Proof. unfold walkMeasure, walkBound. destruct (_ || _); lia. Qed.

Lemma walkStops_false rootDir current :
  walkStops rootDir current = false →
  current ≠ rootDir ∧ Js.startsWith current rootDir = true ∧
  Path.dirname current ≠ current.
Proof.
  unfold walkStops. repeat case_bool_decide; destruct (Js.startsWith _ _); naive_solver.
Qed.

Lemma visitedDirs_enough rootDir fuel fuel' current :
  walkMeasure current < fuel → walkMeasure current < fuel' →
  visitedDirs fuel rootDir current = visitedDirs fuel' rootDir current.
Proof.
  revert fuel' current. induction fuel as [|fuel IH]; intros [|fuel'] current H1 H2;
    try lia.
  cbn [visitedDirs]. destruct (walkStops rootDir current) eqn:Hstop; [done|].
  apply walkStops_false in Hstop as (_ & _ & Hup%dirname_measure).
  f_equal. apply IH; lia.
Qed.

Lemma testedDirs_step config fuel rootDir current :
  testedDirs config (S fuel) rootDir current =
    (if isTested config rootDir current then [current] else [])
    ++ (if walkStops rootDir current then []
        else testedDirs config fuel rootDir (Path.dirname current)).
Proof.
  unfold testedDirs. cbn [visitedDirs]. rewrite filter_cons.
  destruct (isTested config rootDir current) eqn:Ht.
  - rewrite decide_True by done. by destruct (walkStops rootDir current).
  - rewrite decide_False by (intros []). by destruct (walkStops rootDir current).
Qed.

(** The loop, run with enough fuel, returns: its result collects the
    matches and the calls of the tested directories in the order of the
    walk. *)
Lemma walkUp_visited fs rootDir config fuel current found probes :
  walkMeasure current < fuel →
  walkUp fuel fs rootDir config current found probes =
    Some (found ++ omap (dirMatch fs config) (testedDirs config fuel rootDir current),
          probes ++ (testedDirs config fuel rootDir current ≫= dirProbes fs config)).
Proof.
  revert current found probes.
  induction fuel as [|fuel IH]; intros current found probes Hfuel; [lia|].
  cbn [walkUp]. rewrite testedDirs_step.
  change (negb (bool_decide (current = rootDir)) || negb (excludeRoot config))
    with (isTested config rootDir current).
  assert (walkStops rootDir current =
          bool_decide (current = rootDir)
          || negb (Js.startsWith current rootDir) && negb (bool_decide (current = rootDir))
          || bool_decide (Path.dirname current = current)) as Hstops.
  { unfold walkStops. repeat case_bool_decide; by destruct (Js.startsWith _ _). }
  rewrite Hstops. clear Hstops.
  set (found1 := found ++ omap (dirMatch fs config)
                   (if isTested config rootDir current then [current] else [])).
  set (probes1 := probes ++ ((if isTested config rootDir current then [current] else [])
                   ≫= dirProbes fs config)).
  assert ((if isTested config rootDir current
           then let '(r, t) := probeDirectory fs current (filenames config) in
                (match r with Some filePath => found ++ [filePath] | None => found end,
                 probes ++ t)
           else (found, probes)) = (found1, probes1)) as ->.
  { subst found1 probes1. destruct (isTested config rootDir current).
    - cbn [omap list_omap mbind list_bind]. unfold dirMatch, dirProbes.
      destruct (probeDirectory fs current (filenames config)) as [[p|] t];
        cbn [fst snd]; by rewrite ?app_nil_r.
    - cbn [omap list_omap mbind list_bind]. by rewrite !app_nil_r. }
  destruct (bool_decide (current = rootDir)
            || negb (Js.startsWith current rootDir) && negb (bool_decide (current = rootDir))).
  { cbn [orb]. subst found1 probes1. by rewrite !app_nil_r. }
  cbn [orb]. case_bool_decide as Hfix.
  { subst found1 probes1. by rewrite !app_nil_r. }
  pose proof (dirname_measure current Hfix) as Hdec.
  rewrite IH by lia. subst found1 probes1.
  by rewrite omap_app, bind_app, !app_assoc.
Qed.

Lemma visitedDirs_last rootDir fuel current :
  walkMeasure current < fuel →
  ∃ dirs last,
    visitedDirs fuel rootDir current = dirs ++ [last] ∧
    walkStops rootDir last = true ∧
    Forall (λ d, walkStops rootDir d = false) dirs.
Proof.
  revert current. induction fuel as [|fuel IH]; intros current Hfuel; [lia|].
  cbn [visitedDirs]. destruct (walkStops rootDir current) eqn:Hstop.
  - by exists [], current.
  - pose proof Hstop as (_ & _ & Hup%dirname_measure)%walkStops_false.
    destruct (IH (Path.dirname current)) as (dirs & last & -> & Hlast & Hdirs); [lia|].
    exists (current :: dirs), last. split_and!; [done | done |].
    by apply Forall_cons.
Qed.

Lemma findAgentsFilesUpFuel_enough fs startDir rootDir config fuel :
  walkMeasure startDir < fuel →
  findAgentsFilesUpFuel fuel fs startDir rootDir config =
    Some (rev (omap (dirMatch fs config) (testedDirs config fuel rootDir startDir)),
          testedDirs config fuel rootDir startDir ≫= dirProbes fs config).
Proof.
  intros Hfuel. unfold findAgentsFilesUpFuel. by rewrite walkUp_visited.
Qed.

Lemma testedDirs_enough config rootDir fuel fuel' current :
  walkMeasure current < fuel → walkMeasure current < fuel' →
  testedDirs config fuel rootDir current = testedDirs config fuel' rootDir current.
Proof.
  intros H1 H2. unfold testedDirs. by rewrite (visitedDirs_enough _ fuel fuel').
Qed.

Lemma findAgentsFilesUpTraced_eq fs startDir rootDir config :
  findAgentsFilesUpTraced fs startDir rootDir config =
    (rev (omap (dirMatch fs config)
            (testedDirs config (walkBound startDir) rootDir startDir)),
     testedDirs config (walkBound startDir) rootDir startDir ≫= dirProbes fs config).
Proof.
  unfold findAgentsFilesUpTraced.
  by rewrite findAgentsFilesUpFuel_enough by apply walkMeasure_bound.
Qed.

(** C8.  The walk always ends: with [walkBound startDir] iterations or
    more [findAgentsFilesUp] returns, always the same result, and the
    directories it visits end with one that meets a stopping condition
    (it is the root, it does not start with the root, or it is its own
    parent), the only one of them that does. *)
Theorem findAgentsFilesUp_terminates fs startDir rootDir config fuel :
  walkBound startDir ≤ fuel →
  findAgentsFilesUpFuel fuel fs startDir rootDir config =
    Some (findAgentsFilesUpTraced fs startDir rootDir config) ∧
  ∃ dirs last,
    visitedDirs fuel rootDir startDir = dirs ++ [last] ∧
    (last = rootDir ∨ Js.startsWith last rootDir = false
     ∨ Path.dirname last = last) ∧
    Forall (λ d, d ≠ rootDir ∧ Js.startsWith d rootDir = true
                 ∧ Path.dirname d ≠ d) dirs.
Proof.
  intros Hfuel. pose proof (walkMeasure_bound startDir) as Hm. split.
  - rewrite findAgentsFilesUpFuel_enough by lia.
    rewrite findAgentsFilesUpTraced_eq.
    by rewrite (testedDirs_enough _ _ fuel (walkBound startDir)) by lia.
  - destruct (visitedDirs_last rootDir fuel startDir) as (dirs & last & Hv & Hlast & Hdirs);
      [lia|].
    exists dirs, last. split_and!; [done| |].
    + unfold walkStops in Hlast. repeat case_bool_decide;
        destruct (Js.startsWith last rootDir); naive_solver.
    + eapply Forall_impl; [exact Hdirs|]. intros d. apply walkStops_false.
Qed.

Lemma findAgentsFilesUp_terminates_witness :
  findAgentsFilesUpFuel 40 (sampleFs ["/proj/src/AGENTS.md"]) "/proj/src/api" "/proj"
    (sampleConfig true)
  = Some (findAgentsFilesUpTraced (sampleFs ["/proj/src/AGENTS.md"]) "/proj/src/api" "/proj"
            (sampleConfig true)).
Proof.
  apply (findAgentsFilesUp_terminates (sampleFs ["/proj/src/AGENTS.md"])
           "/proj/src/api" "/proj" (sampleConfig true) 40).
  vm_compute. lia.
Defined.

(** The filename loop in one directory stops at the first filename that
    names a regular file. *)
Lemma probeDirectory_spec fs d names :
  (∃ before f after,
     names = before ++ f :: after ∧
     Forall (λ g, statSync fs (Path.join d g) ≠ Some true) before ∧
     statSync fs (Path.join d f) = Some true ∧
     probeDirectory fs d names = (Some (Path.join d f), mkProbe d <$> before ++ [f])) ∨
  (Forall (λ g, statSync fs (Path.join d g) ≠ Some true) names ∧
   probeDirectory fs d names = (None, mkProbe d <$> names)).
Proof.
  induction names as [|g names IH]; [by right|].
  cbn [probeDirectory]. fold (mkProbe d g).
  destruct (statSync fs (Path.join d g)) as [[|]|] eqn:Hg;
    [left; exists [], g, names; by split_and! | |];
    (destruct IH as [(before & f & after & -> & Hbefore & Hf & ->)|[Hnone ->]];
     [ left; exists (g :: before), f, after; split_and!; [done| |done|done];
       apply Forall_cons; split; [congruence | done]
     | right; split; [apply Forall_cons; split; [congruence | done] | done] ]).
Qed.

(** C5.  The result of [findAgentsFilesUp] holds, for each directory in
    which filenames are tested, the match of that directory and nothing
    else, outermost directory first.  In one directory the filenames are
    tested in order up to the first that names a regular file, which is
    the match; a name that does not exist or names a directory is passed
    over, and no filename after the match is tested.  With candidates
    ["AGENTS.md"] and ["CLAUDE.md"] both present, the match is the
    ["AGENTS.md"] path and it is the only call made there. *)
Theorem first_match_per_directory fs startDir rootDir config :
  findAgentsFilesUpTraced fs startDir rootDir config =
    (rev (omap (dirMatch fs config)
            (testedDirs config (walkBound startDir) rootDir startDir)),
     testedDirs config (walkBound startDir) rootDir startDir ≫= dirProbes fs config) ∧
  (∀ d names,
     (∃ before f after,
        names = before ++ f :: after ∧
        Forall (λ g, statSync fs (Path.join d g) ≠ Some true) before ∧
        statSync fs (Path.join d f) = Some true ∧
        probeDirectory fs d names
          = (Some (Path.join d f), mkProbe d <$> before ++ [f])) ∨
     (Forall (λ g, statSync fs (Path.join d g) ≠ Some true) names ∧
      probeDirectory fs d names = (None, mkProbe d <$> names))) ∧
  (∀ d,
     statSync fs (Path.join d "AGENTS.md") = Some true →
     statSync fs (Path.join d "CLAUDE.md") = Some true →
     probeDirectory fs d ["AGENTS.md"; "CLAUDE.md"]
       = (Some (Path.join d "AGENTS.md"), [mkProbe d "AGENTS.md"])).
Proof.
  split_and!.
  - apply findAgentsFilesUpTraced_eq.
  - apply probeDirectory_spec.
  - intros d Ha _. cbn [probeDirectory]. by rewrite Ha.
Qed.

Lemma first_match_per_directory_witness :
  probeDirectory (sampleFs ["/proj/src/AGENTS.md"; "/proj/src/CLAUDE.md"])
    "/proj/src" ["AGENTS.md"; "CLAUDE.md"]
  = (Some "/proj/src/AGENTS.md", [mkProbe "/proj/src" "AGENTS.md"]).
Proof.
  destruct (first_match_per_directory
              (sampleFs ["/proj/src/AGENTS.md"; "/proj/src/CLAUDE.md"])
              "/proj/src" "/proj" (sampleConfig true)) as (_ & _ & H).
  apply (H "/proj/src"); vm_compute; reflexivity.
Defined.

(** ** The read hook *)

Section JsMapSet.
Context {V : Type}.
Implicit Types (m : JsMap.t V) (k : string) (v : V).

Lemma set_same k v m : JsMap.get k m = Some v → JsMap.set k v m = m.
Proof.
  induction m as [|[k' v'] m IH]; cbn [JsMap.get JsMap.set]; [done|].
  destruct (decide (k' = k)) as [->|Hne].
  - by intros [= ->].
  - intros H. by rewrite IH.
Qed.

Lemma set_set k v v' m :
  JsMap.get k m ≠ None → JsMap.set k v' (JsMap.set k v m) = JsMap.set k v' m.
Proof.
  induction m as [|[k0 v0] m IH]; cbn [JsMap.get JsMap.set]; [done|].
  destruct (decide (k0 = k)) as [->|Hne]; cbn [JsMap.set].
  - by rewrite decide_True.
  - intros H. by rewrite decide_False, IH.
Qed.
End JsMapSet.

Lemma getSessionCache_get sid m :
  JsMap.get sid (getSessionCache sid m).1 = Some (getSessionCache sid m).2.
Proof.
  unfold getSessionCache. cbn [fst snd].
  match goal with |- context [negb (JsMap.has sid ?x)] => set (m1 := x) end.
  unfold JsMap.has. destruct (JsMap.get sid m1) as [c|] eqn:Hg; cbn [negb].
  - by rewrite Hg.
  - by rewrite get_set_eq.
Qed.

Lemma JsSet_has_true x (s : JsSet.t) : JsSet.has x s = true ↔ x ∈ s.
Proof. unfold JsSet.has. by rewrite bool_decide_eq_true. Qed.

Lemma JsSet_has_false x (s : JsSet.t) : JsSet.has x s = false ↔ x ∉ s.
Proof. unfold JsSet.has. by rewrite bool_decide_eq_false. Qed.

Lemma addInjected_new sid p m c :
  JsMap.get sid m = Some c → p ∉ injectedPaths c →
  addInjected sid p m = JsMap.set sid {| injectedPaths := injectedPaths c ++ [p] |} m.
Proof.
  intros Hg Hp. unfold addInjected, JsSet.add. rewrite Hg.
  apply JsSet_has_false in Hp. by rewrite Hp.
Qed.

Lemma injectedOf_get sid m c : JsMap.get sid m = Some c → injectedOf sid m = injectedPaths c.
Proof. intros Hg. unfold injectedOf. by rewrite Hg. Qed.

(** The loop of the hook: the session's set grows by the delivered
    paths, one context is appended for each of them, and one error is
    logged for each read that throws. *)
Lemma injectLoop_spec h resolvedRoot sid files m c contexts log :
  JsMap.get sid m = Some c →
  injectLoop h resolvedRoot sid files m contexts log =
    (JsMap.set sid
       {| injectedPaths :=
            injectedPaths c ++ deliverable (hostFs h) (injectedPaths c) files |} m,
     contexts ++ (fragmentText h resolvedRoot
                    <$> deliverable (hostFs h) (injectedPaths c) files),
     log ++ ((λ p, ConsoleError (readErrorMessage p))
               <$> unreadable (hostFs h) (injectedPaths c) files)).
Proof.
  revert m c contexts log.
  induction files as [|p files IH]; intros m c contexts log Hg.
  - cbn [injectLoop deliverable unreadable fmap list_fmap]. rewrite !app_nil_r.
    rewrite set_same; [done|]. by destruct c.
  - cbn [injectLoop deliverable unreadable]. rewrite (injectedOf_get sid m c Hg).
    destruct (JsSet.has p (injectedPaths c)) eqn:Hseen; [by apply IH|].
    apply JsSet_has_false in Hseen.
    destruct (readFileSync (hostFs h) p) as [text|] eqn:Hread.
    + rewrite (addInjected_new sid p m c Hg Hseen).
      rewrite (IH _ {| injectedPaths := injectedPaths c ++ [p] |})
        by apply get_set_eq.
      cbn [injectedPaths fmap list_fmap].
      rewrite set_set by congruence.
      unfold fragmentText at 2. rewrite Hread. cbn [default from_option id].
      by rewrite <- !app_assoc.
    + rewrite (IH m c) by done. cbn [fmap list_fmap].
      by rewrite <- !app_assoc.
Qed.

Lemma elem_of_deliverable fs seen files p :
  p ∈ deliverable fs seen files ↔
  p ∈ files ∧ (p ∉ seen) ∧ is_Some (readFileSync fs p).
Proof.
  revert seen. induction files as [|q files IH]; intros seen; cbn [deliverable].
  - split; [intros H | intros [H _]]; inversion H.
  - destruct (JsSet.has q seen) eqn:Hq.
    + apply JsSet_has_true in Hq. rewrite IH, elem_of_cons. naive_solver.
    + apply JsSet_has_false in Hq.
      destruct (readFileSync fs q) as [text|] eqn:Hread.
      * rewrite elem_of_cons, IH, elem_of_cons, elem_of_app, list_elem_of_singleton.
        split.
        -- intros [->|(? & ? & ?)]; [|naive_solver].
           rewrite Hread. split_and!; [by left | done | by eexists].
        -- intros ([->|?] & ? & ?); [by left|].
           destruct (decide (p = q)) as [->|?]; [by left | right; naive_solver].
      * rewrite IH, elem_of_cons. split; [naive_solver|].
        intros ([->|?] & ? & Hs); [|done]. rewrite Hread in Hs. by destruct Hs.
Qed.

Lemma elem_of_unreadable fs seen files p :
  p ∈ unreadable fs seen files ↔
  p ∈ files ∧ (p ∉ seen) ∧ readFileSync fs p = None.
Proof.
  revert seen. induction files as [|q files IH]; intros seen; cbn [unreadable].
  - split; [intros H | intros [H _]]; inversion H.
  - destruct (JsSet.has q seen) eqn:Hq.
    + apply JsSet_has_true in Hq. rewrite IH, elem_of_cons. naive_solver.
    + apply JsSet_has_false in Hq.
      destruct (readFileSync fs q) as [text|] eqn:Hread.
      * rewrite IH, elem_of_cons, elem_of_app, list_elem_of_singleton.
        split; [naive_solver|].
        intros ([->|?] & ? & ?); [congruence|].
        split_and!; [done| |done]. intros [?| ->]; [done | congruence].
      * rewrite elem_of_cons, IH, elem_of_cons. split; [naive_solver|].
        intros ([->|?] & ? & ?); [by left|].
        destruct (decide (p = q)) as [->|?]; [by left | right; naive_solver].
Qed.

(** What the hook does once the path test has passed. *)
Lemma onToolResult_accepted {Details} (h : Host) sid (event : ToolResultEvent Details)
    m filePath :
  toolName event = "read" → inputPath event = JsString filePath → filePath ≠ "" →
  hookAccepts h filePath = true →
  let resolvedRoot := Path.resolve (cwd h) (rootDirOf h) in
  let m1 := (getSessionCache sid m).1 in
  let seen := injectedOf sid m1 in
  let new := deliverable (hostFs h) seen (hookFragments h filePath) in
  let failed := unreadable (hostFs h) seen (hookFragments h filePath) in
  onToolResult h sid event m =
    {| returned :=
         match new with
         | [] => None
         | _ =>
             Some {| resContent :=
                       content event ++
                       [TextContent
                          (CONTEXT_SEPARATOR +:+
                           Js.join CONTEXT_SEPARATOR (fragmentText h resolvedRoot <$> new))];
                     resDetails := details event;
                     resIsError := isError event |}
         end;
       caches := JsMap.set sid {| injectedPaths := seen ++ new |} m1;
       console :=
         ((λ p, ConsoleError (readErrorMessage p)) <$> failed) ++
         match new with
         | [] => []
         | _ => [ConsoleLog (injectedMessage (length new) filePath)]
         end |}.
Proof.
  intros Htool Hpath Hne Hacc resolvedRoot m1 seen new failed.
  unfold onToolResult. rewrite Htool, Hpath.
  rewrite bool_decide_eq_true_2 by done. cbn [negb].
  rewrite bool_decide_eq_false_2 by done.
  fold (absolutePathOf h filePath). fold (hookAccepts h filePath).
  rewrite Hacc. cbn [negb]. fold (hookFragments h filePath). fold resolvedRoot m1.
  pose proof (getSessionCache_get sid m) as Hget. fold m1 in Hget.
  set (c := (getSessionCache sid m).2) in Hget.
  assert (seen = injectedPaths c) as Hseen by (subst seen; by apply injectedOf_get).
  subst new failed.
  destruct (hookFragments h filePath) as [|p files] eqn:Hfiles.
  - cbn [length Nat.eqb deliverable unreadable fmap list_fmap app].
    rewrite app_nil_r, Hseen. rewrite set_same; [done | by destruct c].
  - cbn [length Nat.eqb]. rewrite (injectLoop_spec h resolvedRoot sid _ m1 c [] [] Hget).
    rewrite <- Hseen. cbn [app]. rewrite length_fmap.
    destruct (deliverable (hostFs h) seen (p :: files)) as [|q new'].
    + cbn [length fmap list_fmap Nat.ltb Nat.leb]. by rewrite !app_nil_r.
    + reflexivity.
Qed.

Lemma getSessionCache_injectedOf sid m :
  injectedOf sid (getSessionCache sid m).1 = injectedOf sid m.
Proof.
  rewrite (injectedOf_get _ _ _ (getSessionCache_get sid m)).
  destruct (JsMap.has sid m) eqn:Hhas.
  - unfold getSessionCache. rewrite Hhas, andb_false_r. cbn [negb snd].
    rewrite Hhas. cbn [negb]. done.
  - rewrite getSessionCache_fresh by done. unfold injectedOf.
    unfold JsMap.has in Hhas. by destruct (JsMap.get sid m).
Qed.

Lemma getSessionCache_has sid m : JsMap.has sid (getSessionCache sid m).1 = true.
Proof. unfold JsMap.has. by rewrite getSessionCache_get. Qed.

(** What the hook returns, for every event. *)
Lemma onToolResult_returned {Details} (h : Host) sid (event : ToolResultEvent Details) m :
  returned (onToolResult h sid event m) =
    match accumulated h sid event m with
    | [] => None
    | new =>
        Some (augmented event
                (fragmentText h (Path.resolve (cwd h) (rootDirOf h)) <$> new))
    end.
Proof.
  destruct (inputPath event) as [|filePath|] eqn:Hin.
  - unfold onToolResult, accumulated. rewrite Hin. by case_bool_decide.
  - destruct (decide (toolName event = "read")) as [Htool|Htool];
      [|unfold onToolResult, accumulated; rewrite Hin;
        by rewrite bool_decide_eq_false_2 by done].
    destruct (decide (filePath = "")) as [Hempty|Hne];
      [unfold onToolResult, accumulated; rewrite Hin;
        by rewrite !bool_decide_eq_true_2 by done|].
    destruct (hookAccepts h filePath) eqn:Hacc.
    + rewrite (onToolResult_accepted h sid event m filePath Htool Hin Hne Hacc).
      cbn [returned]. unfold accumulated. rewrite Hin, Hacc.
      rewrite bool_decide_eq_true_2, bool_decide_eq_false_2 by done.
      cbn [negb andb]. by destruct (deliverable _ _ _).
    + unfold onToolResult, accumulated. rewrite Hin, Hacc.
      rewrite bool_decide_eq_true_2, bool_decide_eq_false_2 by done.
      cbn [negb andb]. fold (absolutePathOf h filePath). fold (hookAccepts h filePath).
      by rewrite Hacc.
  - unfold onToolResult, accumulated. rewrite Hin. by case_bool_decide.
Qed.

(** The fragments a run accumulates are the resolved fragments that the
    session has not been given before and whose read succeeds. *)
Lemma elem_of_accumulated {Details} (h : Host) sid (event : ToolResultEvent Details)
    m filePath p :
  toolName event = "read" → inputPath event = JsString filePath → filePath ≠ "" →
  hookAccepts h filePath = true →
  p ∈ accumulated h sid event m ↔
  p ∈ hookFragments h filePath ∧ (p ∉ injectedOf sid m)
  ∧ is_Some (readFileSync (hostFs h) p).
Proof.
  intros Htool Hin Hne Hacc. unfold accumulated. rewrite Hin, Hacc.
  rewrite bool_decide_eq_true_2, bool_decide_eq_false_2 by done.
  cbn [negb andb]. by rewrite elem_of_deliverable, getSessionCache_injectedOf.
Qed.

(** C7.  The hook returns nothing, so that the host keeps the result as
    it is, when the run accumulates no fragment.  When it accumulates
    some, it returns the content blocks of the event in their order,
    followed by one text block: the separator, then the fragments joined
    by the separator; [details] and [isError] are those of the event.
    The accumulated fragments are those resolved for the path read that
    the session has not been given before and whose read succeeds. *)
Theorem hook_result_frame {Details} (h : Host) sid (event : ToolResultEvent Details) m :
  (accumulated h sid event m = [] →
     returned (onToolResult h sid event m) = None) ∧
  (accumulated h sid event m ≠ [] →
     returned (onToolResult h sid event m) =
       Some {| resContent :=
                 content event ++
                 [TextContent
                    (CONTEXT_SEPARATOR +:+
                     Js.join CONTEXT_SEPARATOR
                       (fragmentText h (Path.resolve (cwd h) (rootDirOf h))
                          <$> accumulated h sid event m))];
               resDetails := details event;
               resIsError := isError event |}) ∧
  (∀ filePath p,
     toolName event = "read" → inputPath event = JsString filePath →
     filePath ≠ "" → hookAccepts h filePath = true →
     p ∈ accumulated h sid event m ↔
     p ∈ hookFragments h filePath ∧ (p ∉ injectedOf sid m)
     ∧ is_Some (readFileSync (hostFs h) p)).
Proof.
  split_and!.
  - intros Hnone. by rewrite onToolResult_returned, Hnone.
  - intros Hsome. rewrite onToolResult_returned.
    by destruct (accumulated h sid event m).
  - intros filePath p. apply elem_of_accumulated.
Qed.

Lemma hook_result_frame_witness :
  returned (onToolResult (sampleHost "/proj" ["/proj/AGENTS.md"; "/proj/src/AGENTS.md"] true)
              "s1" (readEvent "/proj/src/api/x.ts" [TextContent "x"]) [])
  = Some {| resContent :=
              [TextContent "x";
               TextContent
                 (CONTEXT_SEPARATOR +:+
                  Js.join CONTEXT_SEPARATOR
                    [directoryHeader "src/AGENTS.md" "/proj/src/AGENTS.md"])];
            resDetails := ();
            resIsError := false |}.
Proof.
  destruct (hook_result_frame
              (sampleHost "/proj" ["/proj/AGENTS.md"; "/proj/src/AGENTS.md"] true)
              "s1" (readEvent "/proj/src/api/x.ts" [TextContent "x"]) [])
    as (_ & H & _).
  rewrite H; [vm_compute; reflexivity | vm_compute; discriminate].
Defined.

Lemma onToolResult_caches {Details} (h : Host) sid (event : ToolResultEvent Details)
    m filePath p :
  toolName event = "read" → inputPath event = JsString filePath → filePath ≠ "" →
  hookAccepts h filePath = true →
  p ∈ injectedOf sid (caches (onToolResult h sid event m)) ↔
  p ∈ injectedOf sid m ∨
  (p ∈ hookFragments h filePath ∧ is_Some (readFileSync (hostFs h) p)).
Proof.
  intros Htool Hin Hne Hacc.
  rewrite (onToolResult_accepted h sid event m filePath Htool Hin Hne Hacc).
  cbn [caches]. rewrite (injectedOf_get _ _ _ (get_set_eq _ _ _)). cbn [injectedPaths].
  rewrite elem_of_app, elem_of_deliverable, getSessionCache_injectedOf.
  destruct (decide (p ∈ injectedOf sid m)); naive_solver.
Qed.

Lemma onToolResult_console {Details} (h : Host) sid (event : ToolResultEvent Details)
    m filePath p :
  toolName event = "read" → inputPath event = JsString filePath → filePath ≠ "" →
  hookAccepts h filePath = true →
  p ∈ hookFragments h filePath → (p ∉ injectedOf sid m) →
  readFileSync (hostFs h) p = None →
  ConsoleError (readErrorMessage p) ∈ console (onToolResult h sid event m).
Proof.
  intros Htool Hin Hne Hacc Hp Hnew Hread.
  rewrite (onToolResult_accepted h sid event m filePath Htool Hin Hne Hacc).
  cbn [console]. apply elem_of_app. left.
  apply (list_elem_of_fmap_2 (λ p, ConsoleError (readErrorMessage p))).
  apply elem_of_unreadable. by rewrite getSessionCache_injectedOf.
Qed.

(** C9.  In a run of the hook that passes the path test, a resolved
    fragment whose read throws and that the session had not been given is
    not added to the session's set, and the error is logged; every
    resolved fragment whose read succeeds is in the session's set after
    the run, and is among the fragments accumulated by the run when the
    session had not been given it, whatever happens to the other
    fragments. *)
Theorem failed_read_is_skipped {Details} (h : Host) sid
    (event : ToolResultEvent Details) m filePath :
  toolName event = "read" → inputPath event = JsString filePath → filePath ≠ "" →
  hookAccepts h filePath = true →
  (∀ p, p ∈ hookFragments h filePath → readFileSync (hostFs h) p = None →
        (p ∉ injectedOf sid m) →
        (p ∉ injectedOf sid (caches (onToolResult h sid event m))) ∧
        ConsoleError (readErrorMessage p) ∈ console (onToolResult h sid event m)) ∧
  (∀ q, q ∈ hookFragments h filePath → is_Some (readFileSync (hostFs h) q) →
        q ∈ injectedOf sid (caches (onToolResult h sid event m)) ∧
        ((q ∉ injectedOf sid m) → q ∈ accumulated h sid event m)).
Proof.
  intros Htool Hin Hne Hacc. split.
  - intros p Hp Hread Hnew. split.
    + rewrite (onToolResult_caches h sid event m filePath p) by done.
      intros [?|[_ Hs]]; [done|]. rewrite Hread in Hs. by destruct Hs.
    + by apply (onToolResult_console h sid event m filePath).
  - intros q Hq Hread. split.
    + rewrite (onToolResult_caches h sid event m filePath q) by done. by right.
    + intros Hnew. by apply (elem_of_accumulated h sid event m filePath).
Qed.

Lemma failed_read_is_skipped_witness :
  ("/proj/src/AGENTS.md" ∉
     injectedOf "s1"
       (caches (onToolResult
                  (flakyHost "/proj" ["/proj/src/AGENTS.md"; "/proj/src/api/AGENTS.md"]
                     ["/proj/src/AGENTS.md"] true)
                  "s1" (readEvent "/proj/src/api/x.ts" []) []))) ∧
  "/proj/src/api/AGENTS.md" ∈
     accumulated
       (flakyHost "/proj" ["/proj/src/AGENTS.md"; "/proj/src/api/AGENTS.md"]
          ["/proj/src/AGENTS.md"] true)
       "s1" (readEvent "/proj/src/api/x.ts" []) [].
Proof.
  destruct (failed_read_is_skipped
              (flakyHost "/proj" ["/proj/src/AGENTS.md"; "/proj/src/api/AGENTS.md"]
                 ["/proj/src/AGENTS.md"] true)
              "s1" (readEvent "/proj/src/api/x.ts" []) [] "/proj/src/api/x.ts")
    as [Hfail Hok]; [reflexivity | reflexivity | discriminate | vm_compute; reflexivity |].
  split.
  - apply (Hfail "/proj/src/AGENTS.md");
      [apply (bool_decide_unpack _); vm_compute; exact I
      | vm_compute; reflexivity
      | apply (bool_decide_unpack _); vm_compute; exact I].
  - apply (Hok "/proj/src/api/AGENTS.md");
      [apply (bool_decide_unpack _); vm_compute; exact I
      | apply (bool_decide_unpack _); vm_compute; exact I
      | apply (bool_decide_unpack _); vm_compute; exact I].
Defined.

(** The path test as the handler makes it, a comparison of strings.  For
    a read event with a usable path: when the resolved path does not
    start with the resolved workspace root, the hook returns nothing,
    leaves the session table as it was and logs one warning.  When the
    resolved path starts with the resolved root, the hook proceeds: the
    session is tracked afterwards, no warning is logged, the session's
    set grows by the resolved fragments whose read succeeds, and a result
    is returned exactly when a fragment is accumulated. *)
Theorem path_outside_root_is_skipped {Details} (h : Host) sid
    (event : ToolResultEvent Details) m filePath :
  toolName event = "read" → inputPath event = JsString filePath → filePath ≠ "" →
  (Js.startsWith (Path.resolve (cwd h) (absolutePathOf h filePath))
     (Path.resolve (cwd h) (rootDirOf h)) = false →
   onToolResult h sid event m =
     {| returned := None; caches := m;
        console := [ConsoleWarn (outsideWarning filePath)] |}) ∧
  (Js.startsWith (Path.resolve (cwd h) (absolutePathOf h filePath))
     (Path.resolve (cwd h) (rootDirOf h)) = true →
   JsMap.has sid (caches (onToolResult h sid event m)) = true ∧
   (∀ msg, ConsoleWarn msg ∉ console (onToolResult h sid event m)) ∧
   (∀ p, p ∈ injectedOf sid (caches (onToolResult h sid event m)) ↔
         p ∈ injectedOf sid m ∨
         (p ∈ hookFragments h filePath ∧ is_Some (readFileSync (hostFs h) p))) ∧
   (returned (onToolResult h sid event m) = None ↔ accumulated h sid event m = [])).
Proof.
  intros Htool Hin Hne. split.
  - intros Hout. unfold onToolResult. rewrite Htool, Hin.
    rewrite bool_decide_eq_true_2, bool_decide_eq_false_2 by done. cbn [negb].
    fold (absolutePathOf h filePath). by rewrite Hout.
  - intros Hacc. fold (hookAccepts h filePath) in Hacc. split_and!.
    + rewrite (onToolResult_accepted h sid event m filePath Htool Hin Hne Hacc).
      cbn [caches]. unfold JsMap.has. by rewrite get_set_eq.
    + intros msg.
      rewrite (onToolResult_accepted h sid event m filePath Htool Hin Hne Hacc).
      cbn [console]. intros [Hin'|Hin']%elem_of_app.
      * apply list_elem_of_fmap in Hin' as (p & [=] & _).
      * destruct (deliverable _ _ _); [inversion Hin'|].
        apply list_elem_of_singleton in Hin'. discriminate Hin'.
    + intros p. by apply onToolResult_caches.
    + rewrite onToolResult_returned. by destruct (accumulated h sid event m).
Qed.

Lemma path_outside_root_is_skipped_witness :
  onToolResult (sampleHost "/work" ["/etc/AGENTS.md"] true) "s1"
    (readEvent "../../etc/passwd" []) []
  = {| returned := None; caches := [];
       console := [ConsoleWarn (outsideWarning "../../etc/passwd")] |} ∧
  JsMap.has "s1"
    (caches (onToolResult (sampleHost "/work" ["/work/src/AGENTS.md"] true) "s1"
               (readEvent "/work/src/a.ts" []) [])) = true.
Proof.
  split.
  - apply (path_outside_root_is_skipped (sampleHost "/work" ["/etc/AGENTS.md"] true)
             "s1" (readEvent "../../etc/passwd" []) [] "../../etc/passwd");
      [reflexivity | reflexivity | discriminate | vm_compute; reflexivity].
  - apply (path_outside_root_is_skipped (sampleHost "/work" ["/work/src/AGENTS.md"] true)
             "s1" (readEvent "/work/src/a.ts" []) [] "/work/src/a.ts");
      [reflexivity | reflexivity | discriminate | vm_compute; reflexivity].
Defined.

(** C2, on the code.  The handler's comment says that it validates that
    the path stays within the workspace, and its test is [startsWith] on
    the resolved strings.  With root ["/work"], a read of
    ["/workspace/a.ts"] resolves to itself, outside the root directory;
    the handler accepts it: it logs no warning, tracks the session, marks
    ["/workspace/AGENTS.md"] delivered and returns the result with that
    fragment appended. *)
Theorem path_outside_root_is_injected :
  Path.resolve "/work"
    (absolutePathOf (sampleHost "/work" ["/workspace/AGENTS.md"] true) "/workspace/a.ts")
    = "/workspace/a.ts" ∧
  Path.resolve "/work" (rootDirOf (sampleHost "/work" ["/workspace/AGENTS.md"] true))
    = "/work" ∧
  isWithin "/work" "/workspace/a.ts" = false ∧
  onToolResult (sampleHost "/work" ["/workspace/AGENTS.md"] true) "s1"
    (readEvent "/workspace/a.ts" [TextContent "x"]) []
  = {| returned :=
         Some {| resContent :=
                   [TextContent "x";
                    TextContent
                      (CONTEXT_SEPARATOR +:+
                       directoryHeader "../workspace/AGENTS.md" "/workspace/AGENTS.md")];
                 resDetails := ();
                 resIsError := false |};
       caches := [("s1", {| injectedPaths := ["/workspace/AGENTS.md"] |})];
       console := [ConsoleLog (injectedMessage 1 "/workspace/a.ts")] |}.
Proof.
  split_and!; vm_compute; reflexivity.
Qed.

(** C10.  The containment test compares strings.  With root ["/work"],
    the path ["/workspace/a.ts"] and the directory ["/workspace"] are not
    inside the root directory, start with the root string, and are not
    followed there by a separator; the hook and the manual tool accept
    them, whatever the files are, and resolve fragments outside the
    workspace: the hook injects ["/workspace/AGENTS.md"] and marks it
    delivered, the tool returns its content. *)
Theorem containment_test_is_textual :
  ∃ root filePath dir,
    Path.isAbsolute filePath = true ∧ Path.isAbsolute dir = true ∧
    isWithin root filePath = false ∧ isWithin root dir = false ∧
    Js.startsWith filePath root = true ∧ Js.startsWith dir root = true ∧
    Path.isSlashAt filePath (String.length root) = false ∧
    Path.isSlashAt dir (String.length root) = false ∧
    (∀ files exclude,
       hookAccepts (sampleHost root files exclude) filePath = true ∧
       toolAccepts (sampleHost root files exclude) dir = true) ∧
    accumulated (sampleHost root ["/workspace/AGENTS.md"] true) "s1"
      (readEvent filePath []) [] = ["/workspace/AGENTS.md"] ∧
    injectedOf "s1"
      (caches (onToolResult (sampleHost root ["/workspace/AGENTS.md"] true) "s1"
                 (readEvent filePath []) [])) = ["/workspace/AGENTS.md"] ∧
    injectContext (sampleHost root ["/workspace/AGENTS.md"] true) dir
      = {| toolContent :=
             [TextContent ("[../workspace/AGENTS.md]:" +:+ String Js.nl "/workspace/AGENTS.md")];
           toolIsError := None |}.
Proof.
  exists "/work", "/workspace/a.ts", "/workspace".
  split_and!; try (vm_compute; reflexivity).
  intros files exclude. split; vm_compute; reflexivity.
Qed.

(** ** Canonical paths *)

Section PathFacts.
Implicit Types (s t f : string) (segs : list string).

Lemma plainName_inv f :
  plainName f = true →
  f ≠ "" ∧ f ≠ "." ∧ f ≠ ".." ∧ hasSlash f = false.
Proof.
  unfold plainName. intros H.
  repeat (apply andb_true_iff in H as [H ?]).
  repeat match goal with
         | H : negb _ = true |- _ => apply negb_true_iff in H
         | H : bool_decide _ = false |- _ => apply bool_decide_eq_false in H
         end.
  done.
Qed.

Lemma slash_append t : "/" +:+ t = String Path.slash t.
Proof. reflexivity. Qed.

Lemma segments_plain s : hasSlash s = false → Path.segments s = [s].
Proof.
  induction s as [|c s IH]; [done|]. cbn [hasSlash Path.segments].
  intros [Hc Hs]%orb_false_iff. apply bool_decide_eq_false in Hc.
  rewrite decide_False by done. by rewrite IH.
Qed.

Lemma segments_app_slash s t :
  hasSlash s = false →
  Path.segments (s +:+ String Path.slash t) = s :: Path.segments t.
Proof.
  induction s as [|c s IH].
  - intros _. rewrite append_nil_l. cbn [Path.segments]. by rewrite decide_True.
  - cbn [hasSlash]. intros [Hc Hs]%orb_false_iff. apply bool_decide_eq_false in Hc.
    rewrite append_cons. cbn [Path.segments].
    rewrite decide_False by done. by rewrite IH.
Qed.

Lemma join_cons2 sep x y l :
  Js.join sep (x :: y :: l) = x +:+ sep +:+ Js.join sep (y :: l).
Proof. reflexivity. Qed.

Lemma segments_join segs :
  Forall (λ s, hasSlash s = false) segs → segs ≠ [] →
  Path.segments (Js.join "/" segs) = segs.
Proof.
  induction segs as [|x [|y segs] IH]; [done| |].
  - intros [Hx _]%Forall_cons _. cbn [Js.join]. by apply segments_plain.
  - intros [Hx Hrest]%Forall_cons _. rewrite join_cons2, slash_append.
    rewrite segments_app_slash by done. by rewrite IH.
Qed.

Lemma join_snoc segs f :
  segs ≠ [] → Js.join "/" (segs ++ [f]) = Js.join "/" segs +:+ "/" +:+ f.
Proof.
  induction segs as [|x [|y segs] IH]; [done| |]; intros _.
  - reflexivity.
  - rewrite <- !app_comm_cons. rewrite join_cons2.
    rewrite app_comm_cons, IH by done. rewrite join_cons2.
    by rewrite !append_assoc.
Qed.

Lemma normalizeSegments_plain b acc segs :
  Forall (λ s, plainName s = true) segs →
  Path.normalizeSegments b acc segs = rev acc ++ segs.
Proof.
  revert acc. induction segs as [|x segs IH]; intros acc.
  - intros _. cbn [Path.normalizeSegments]. by rewrite app_nil_r.
  - intros [Hx Hrest]%Forall_cons. apply plainName_inv in Hx as (H1 & H2 & H3 & _).
    cbn [Path.normalizeSegments].
    rewrite !bool_decide_eq_false_2 by done. cbn [orb].
    rewrite IH by done. cbn [rev]. by rewrite <- app_assoc.
Qed.

Lemma plain_noSlash segs :
  Forall (λ s, plainName s = true) segs → Forall (λ s, hasSlash s = false) segs.
Proof.
  intros H. eapply Forall_impl; [exact H|].
  intros s Hs. by apply plainName_inv in Hs as (_ & _ & _ & ?).
Qed.

Lemma join_nonempty segs :
  Forall (λ s, plainName s = true) segs → segs ≠ [] → Js.join "/" segs ≠ "".
Proof.
  destruct segs as [|x [|y segs]]; [done| |]; intros [Hx _]%Forall_cons _;
    apply plainName_inv in Hx as (Hx & _); by destruct x.
Qed.

Lemma ofSegments_snoc segs f :
  ofSegments (segs ++ [f]) =
    (match segs with [] => "" | _ => ofSegments segs end) +:+ "/" +:+ f.
Proof.
  unfold ofSegments. destruct segs as [|x segs]; [reflexivity|].
  rewrite join_snoc by done. by rewrite !append_assoc.
Qed.

Lemma isSlashAt_app_r s t i :
  Path.isSlashAt (s +:+ t) (String.length s + i) = Path.isSlashAt t i.
Proof.
  unfold Path.isSlashAt, Path.charAt.
  by rewrite (append_correct2 s t i), (Nat.add_comm i).
Qed.

Lemma isSlashAt_noSlash f i : hasSlash f = false → Path.isSlashAt f i = false.
Proof.
  unfold Path.isSlashAt, Path.charAt. revert i.
  induction f as [|c f IH]; intros i; cbn [hasSlash String.get].
  - intros _. by destruct i.
  - intros [Hc Hf]%orb_false_iff. apply bool_decide_eq_false in Hc.
    destruct i as [|i]; [|by apply IH].
    apply bool_decide_eq_false. congruence.
Qed.

Lemma take_app_length s t : Js.take (String.length s) (s +:+ t) = s.
Proof.
  induction s as [|c s IH]; [by destruct t|].
  rewrite append_cons. cbn [String.length Js.take]. by rewrite IH.
Qed.

Lemma string_length_append s t :
  String.length (s +:+ t) = String.length s + String.length t.
Proof. apply length_append. Qed.

(** The backward scan of [dirname] passes over characters that are
    not separators. *)
Lemma dirnameScan_skip p k n b :
  (∀ j, j < n → Path.isSlashAt p (k + 1 + j) = false) → 0 < n →
  Path.dirnameScan p (k + n) b = Path.dirnameScan p k false.
Proof.
  revert b. induction n as [|n IH]; intros b Hfree Hn; [lia|].
  replace (k + S n) with (S (k + n)) by lia. cbn [Path.dirnameScan].
  replace (S (k + n)) with (k + 1 + n) by lia. rewrite Hfree by lia.
  destruct n as [|n]; [by rewrite Nat.add_0_r|].
  apply IH; [|lia]. intros j Hj. apply Hfree. lia.
Qed.

Lemma join_plain segs f :
  Forall (λ s, plainName s = true) segs → plainName f = true →
  Path.join (ofSegments segs) f = ofSegments (segs ++ [f]).
Proof.
  intros Hsegs Hf. pose proof Hf as (Hf1 & _ & _ & Hf4)%plainName_inv.
  assert (Forall (λ s, plainName s = true) (segs ++ [f])) as Hall
    by (apply Forall_app; split; [done | by apply Forall_singleton]).
  unfold Path.join.
  rewrite (bool_decide_eq_false_2 (ofSegments segs = "")) by done.
  rewrite (bool_decide_eq_false_2 (f = "")) by done.
  unfold Path.normalize. cbv zeta.
  rewrite bool_decide_eq_false_2 by done.
  assert (Path.isAbsolute (ofSegments segs +:+ "/" +:+ f) = true) as -> by done.
  assert (Path.isSlashAt (ofSegments segs +:+ "/" +:+ f)
            (String.length (ofSegments segs +:+ "/" +:+ f) - 1) = false) as ->.
  { rewrite <- append_assoc.
    rewrite string_length_append.
    assert (0 < String.length f) by (destruct f; [done | cbn; lia]).
    replace (String.length (ofSegments segs +:+ "/") + String.length f - 1)
      with (String.length (ofSegments segs +:+ "/") + (String.length f - 1)) by lia.
    rewrite isSlashAt_app_r. by apply isSlashAt_noSlash. }
  cbn [negb].
  assert (Path.normalizeString (ofSegments segs +:+ "/" +:+ f) false
          = Js.join "/" (segs ++ [f])) as ->.
  { unfold Path.normalizeString. f_equal. unfold ofSegments.
    rewrite slash_append, append_cons. cbn [Path.segments].
    rewrite decide_True by done. cbn [Path.normalizeSegments].
    rewrite bool_decide_eq_true_2 by done. cbn [orb].
    destruct segs as [|x segs].
    - rewrite append_nil_l, slash_append. cbn [Js.join Path.segments].
      rewrite decide_True by done. cbn [Path.normalizeSegments].
      rewrite bool_decide_eq_true_2 by done. cbn [orb].
      rewrite segments_plain by done.
      by rewrite normalizeSegments_plain by (by apply Forall_singleton).
    - rewrite <- join_snoc by done.
      rewrite segments_join by (by apply plain_noSlash || done).
      by rewrite normalizeSegments_plain. }
  rewrite bool_decide_eq_false_2 by (by apply join_nonempty; [|destruct segs]).
  reflexivity.
Qed.
End PathFacts.

Section CanonicalWalk.
Implicit Types (s t f : string) (segs rs ds l : list string).

Lemma ofSegments_length_pos segs : 0 < String.length (ofSegments segs).
Proof. unfold ofSegments. rewrite slash_append. cbn. lia. Qed.

Lemma ofSegments_length_cons x segs :
  plainName x = true → Forall (λ s, plainName s = true) segs →
  2 ≤ String.length (ofSegments (x :: segs)).
Proof.
  intros Hx Hsegs. unfold ofSegments. rewrite slash_append. cbn [String.length].
  assert (Js.join "/" (x :: segs) ≠ "") as Hne
    by (apply join_nonempty; [by apply Forall_cons | done]).
  destruct (Js.join "/" (x :: segs)); [done | cbn; lia].
Qed.

Lemma dirname_plain segs f :
  Forall (λ s, plainName s = true) segs → plainName f = true →
  Path.dirname (ofSegments (segs ++ [f])) = ofSegments segs.
Proof.
  intros Hsegs Hf. pose proof Hf as (Hf1 & _ & _ & Hf4)%plainName_inv.
  assert (0 < String.length f) as Hlen by (destruct f; [done | cbn; lia]).
  rewrite ofSegments_snoc.
  set (pre := match segs with [] => "" | _ => ofSegments segs end).
  unfold Path.dirname.
  rewrite bool_decide_eq_false_2
    by (destruct segs; unfold pre, ofSegments; rewrite ?slash_append; done).
  assert (Path.isSlashAt (pre +:+ "/" +:+ f) 0 = true) as ->
    by (destruct segs; done).
  assert (String.length (pre +:+ "/" +:+ f) - 1 = String.length pre + String.length f)
    as -> by (rewrite !string_length_append; cbn; lia).
  rewrite (dirnameScan_skip _ (String.length pre) (String.length f) true); [| |done].
  - destruct segs as [|x segs].
    + reflexivity.
    + apply Forall_cons in Hsegs as [Hx Hsegs].
      pose proof (ofSegments_length_cons x segs Hx Hsegs) as H2. fold pre in H2.
      destruct (String.length pre) as [|k] eqn:Hk; [lia|].
      cbn [Path.dirnameScan].
      assert (Path.isSlashAt (pre +:+ "/" +:+ f) (S k) = true) as ->.
      { rewrite <- Hk. rewrite <- (Nat.add_0_r (String.length pre)).
        by rewrite isSlashAt_app_r. }
      cbn [andb]. destruct (S k =? 1) eqn:E; [apply Nat.eqb_eq in E; lia|].
      rewrite <- Hk. by rewrite take_app_length.
  - intros j Hj.
    replace (String.length pre + 1 + j) with (String.length (pre +:+ "/") + j)
      by (rewrite string_length_append; cbn; lia).
    rewrite <- append_assoc, isSlashAt_app_r. by apply isSlashAt_noSlash.
Qed.

Lemma ofSegments_app_starts rs l :
  Js.startsWith (ofSegments (rs ++ l)) (ofSegments rs) = true.
Proof.
  apply startsWith_iff. induction l as [|x l IH] using rev_ind.
  - exists "". by rewrite app_nil_r, append_nil_r.
  - destruct IH as [t Ht]. rewrite app_assoc, ofSegments_snoc.
    destruct (rs ++ l) as [|y segs] eqn:Hrl.
    + apply app_eq_nil in Hrl as [-> ->]. exists x. reflexivity.
    + rewrite Ht. exists (t +:+ "/" +:+ x). by rewrite !append_assoc.
Qed.

Lemma ofSegments_app_length rs l :
  Forall (λ s, plainName s = true) l →
  String.length (ofSegments rs) + length l ≤ String.length (ofSegments (rs ++ l)).
Proof.
  induction l as [|x l IH] using rev_ind; intros Hl.
  - rewrite app_nil_r. cbn. lia.
  - apply Forall_app in Hl as [Hl Hx]. specialize (IH Hl).
    apply Forall_singleton, plainName_inv in Hx as (Hx & _).
    assert (0 < String.length x) by (destruct x; [done | cbn; lia]).
    rewrite app_assoc, ofSegments_snoc, !string_length_append, length_app.
    change (String.length "/") with 1. change (length [x]) with 1.
    destruct (rs ++ l) as [|y segs] eqn:Hrl.
    + apply app_eq_nil in Hrl as [-> ->].
      change (String.length (ofSegments [])) with 1.
      change (String.length "") with 0. cbn [length]. lia.
    + lia.
Qed.

Lemma ofSegments_app_ne rs l :
  Forall (λ s, plainName s = true) l → l ≠ [] →
  ofSegments (rs ++ l) ≠ ofSegments rs.
Proof.
  intros Hl Hne Heq. pose proof (ofSegments_app_length rs l Hl) as Hlen.
  rewrite Heq in Hlen. destruct l; [done | cbn in Hlen; lia].
Qed.

(** From a canonical directory below a canonical root the walk visits
    the directory, its ancestors up to the root, and stops there. *)
Lemma visitedDirs_canonical rs r fuel :
  Forall (λ s, plainName s = true) rs → Forall (λ s, plainName s = true) r →
  walkMeasure (ofSegments (rs ++ rev r)) < fuel →
  visitedDirs fuel (ofSegments rs) (ofSegments (rs ++ rev r)) =
    (λ l, ofSegments (rs ++ l)) <$> prefixesOfRev r.
Proof.
  intros Hrs. revert fuel. induction r as [|x r IH]; intros fuel Hr Hfuel.
  - destruct fuel as [|fuel]; [lia|]. cbn [rev prefixesOfRev fmap list_fmap visitedDirs].
    rewrite app_nil_r. unfold walkStops.
    by rewrite bool_decide_eq_true_2 by done.
  - apply Forall_cons in Hr as [Hx Hr].
    destruct fuel as [|fuel]; [lia|].
    cbn [prefixesOfRev fmap list_fmap visitedDirs]. f_equal.
    assert (Forall (λ s, plainName s = true) (rs ++ rev r)) as Hall
      by (apply Forall_app; split; [done | by apply Forall_rev]).
    assert (Path.dirname (ofSegments (rs ++ rev (x :: r))) = ofSegments (rs ++ rev r))
      as Hdir by (cbn [rev]; rewrite app_assoc; by apply dirname_plain).
    assert (ofSegments (rs ++ rev (x :: r)) ≠ ofSegments (rs ++ rev r)) as Hne.
    { cbn [rev]. rewrite app_assoc. apply ofSegments_app_ne; [|done].
      by apply Forall_singleton. }
    assert (walkStops (ofSegments rs) (ofSegments (rs ++ rev (x :: r))) = false) as ->.
    { unfold walkStops. rewrite ofSegments_app_starts. cbn [negb].
      rewrite !bool_decide_eq_false_2; [done| |].
      - by rewrite Hdir.
      - apply ofSegments_app_ne; [by apply Forall_rev, Forall_cons|].
        cbn [rev]. intros H. by apply app_eq_nil in H as [_ ?]. }
    rewrite Hdir. apply IH; [done|].
    pose proof (dirname_measure (ofSegments (rs ++ rev (x :: r)))) as Hdec.
    rewrite Hdir in Hdec. specialize (Hdec (not_eq_sym Hne)). lia.
Qed.
End CanonicalWalk.

(** ** The root directory and [excludeRoot] *)

Lemma probeDirectory_match fs d names p :
  (probeDirectory fs d names).1 = Some p →
  ∃ f, f ∈ names ∧ p = Path.join d f ∧ statSync fs p = Some true.
Proof.
  destruct (probeDirectory_spec fs d names)
    as [(before & f & after & -> & _ & Hf & ->)|[_ ->]]; cbn [fst]; [|done].
  intros [= <-]. exists f. split_and!; [|done|done].
  apply elem_of_app. right. by left.
Qed.

Lemma probeDirectory_probes fs d names pr :
  pr ∈ (probeDirectory fs d names).2 → ∃ g, g ∈ names ∧ pr = mkProbe d g.
Proof.
  destruct (probeDirectory_spec fs d names)
    as [(before & f & after & -> & _ & _ & ->)|[_ ->]]; cbn [snd].
  - intros (g & -> & Hg)%list_elem_of_fmap. exists g. split; [|done].
    apply elem_of_app in Hg as [Hg| ->%list_elem_of_singleton];
      apply elem_of_app; [by left | right; by left].
  - intros (g & -> & Hg)%list_elem_of_fmap. by exists g.
Qed.

Lemma probeDirectory_some fs d names f :
  f ∈ names → statSync fs (Path.join d f) = Some true →
  is_Some (probeDirectory fs d names).1.
Proof.
  intros Hf Hstat.
  destruct (probeDirectory_spec fs d names)
    as [(before & g & after & -> & _ & _ & ->)|[Hnone ->]]; cbn [fst]; [by eexists|].
  rewrite Forall_forall in Hnone. by destruct (Hnone f Hf).
Qed.

Lemma prefixesOfRev_plain r l :
  Forall (λ s, plainName s = true) r → l ∈ prefixesOfRev r →
  Forall (λ s, plainName s = true) l.
Proof.
  induction r as [|x r IH]; cbn [prefixesOfRev].
  - intros _ ->%list_elem_of_singleton. done.
  - intros Hr [->|Hl]%elem_of_cons; [by apply Forall_rev|].
    apply IH; [|done]. by apply Forall_cons in Hr as [_ ?].
Qed.

Lemma prefixesOfRev_last r : ∃ front, prefixesOfRev r = front ++ [[]].
Proof.
  induction r as [|x r [front IH]]; [by exists []|].
  exists (rev (x :: r) :: front). cbn [prefixesOfRev]. by rewrite IH.
Qed.

Lemma testedDirs_all config fuel rootDir startDir :
  excludeRoot config = false →
  testedDirs config fuel rootDir startDir = visitedDirs fuel rootDir startDir.
Proof.
  intros Hex. unfold testedDirs.
  induction (visitedDirs fuel rootDir startDir) as [|d dirs IH]; [done|].
  rewrite filter_cons_True, IH; [done|].
  unfold isTested. rewrite Hex. by rewrite orb_true_r.
Qed.

Lemma elem_of_testedDirs config fuel rootDir startDir d :
  d ∈ testedDirs config fuel rootDir startDir →
  d ∈ visitedDirs fuel rootDir startDir ∧ (d ≠ rootDir ∨ excludeRoot config = false).
Proof.
  unfold testedDirs. rewrite list_elem_of_filter. intros [Ht Hd]. split; [done|].
  unfold isTested in Ht. apply Is_true_true, orb_true_iff in Ht as [Ht|Ht].
  - left. by apply negb_true_iff, bool_decide_eq_false in Ht.
  - right. by apply negb_true_iff in Ht.
Qed.

(** C6.  Let the root and the start directory be canonical absolute
    paths, the start directory equal to the root or below it, and the
    candidates plain filenames.  With [excludeRoot] no filename is tested
    in the root directory, and no returned path lies in the root
    directory.  Without it, when some candidate names a regular file in
    the root directory, the root's match is returned, first of all, and
    it lies in the root directory. *)
Theorem root_directory_exclusion fs rs ds config :
  Forall (λ s, plainName s = true) rs →
  Forall (λ s, plainName s = true) ds →
  Forall (λ s, plainName s = true) (filenames config) →
  (excludeRoot config = true →
     (∀ p, p ∈ findAgentsFilesUp fs (ofSegments (rs ++ ds)) (ofSegments rs) config →
           Path.dirname p ≠ ofSegments rs) ∧
     (∀ pr, pr ∈ (findAgentsFilesUpTraced fs (ofSegments (rs ++ ds))
                    (ofSegments rs) config).2 →
            probeDir pr ≠ ofSegments rs ∧
            Path.dirname (probePath pr) ≠ ofSegments rs)) ∧
  (excludeRoot config = false →
     ∀ f, f ∈ filenames config →
          statSync fs (Path.join (ofSegments rs) f) = Some true →
          ∃ p, head (findAgentsFilesUp fs (ofSegments (rs ++ ds)) (ofSegments rs) config)
                 = Some p ∧
               dirMatch fs config (ofSegments rs) = Some p ∧
               Path.dirname p = ofSegments rs ∧
               statSync fs p = Some true).
Proof.
  intros Hrs Hds Hnames.
  pose proof (walkMeasure_bound (ofSegments (rs ++ ds))) as Hfuel.
  pose proof (visitedDirs_canonical rs (rev ds) (walkBound (ofSegments (rs ++ ds))) Hrs)
    as Hvis.
  rewrite rev_involutive in Hvis. specialize (Hvis (Forall_rev Hds) Hfuel).
  assert (∀ d g, d ∈ visitedDirs (walkBound (ofSegments (rs ++ ds))) (ofSegments rs)
                       (ofSegments (rs ++ ds)) →
                 g ∈ filenames config → Path.dirname (Path.join d g) = d) as Hback.
  { intros d g Hd Hg. rewrite Hvis in Hd.
    apply list_elem_of_fmap in Hd as (l & -> & Hl).
    apply prefixesOfRev_plain in Hl; [|by apply Forall_rev].
    rewrite Forall_forall in Hnames.
    assert (Forall (λ s, plainName s = true) (rs ++ l)) as Hall
      by (by apply Forall_app).
    rewrite join_plain by auto. by apply dirname_plain; auto. }
  split.
  - intros Hex. unfold findAgentsFilesUp. rewrite findAgentsFilesUpTraced_eq.
    cbn [fst snd]. split.
    + intros p Hp. apply list_elem_of_In, in_rev, list_elem_of_In in Hp.
      apply list_elem_of_omap in Hp as (d & Hd & Hmatch).
      apply elem_of_testedDirs in Hd as [Hd [Hne|?]]; [|congruence].
      apply probeDirectory_match in Hmatch as (f & Hf & -> & _).
      by rewrite Hback.
    + intros pr Hpr. apply list_elem_of_bind in Hpr as (d & Hpr & Hd).
      apply elem_of_testedDirs in Hd as [Hd [Hne|?]]; [|congruence].
      apply probeDirectory_probes in Hpr as (g & Hg & ->).
      cbn [mkProbe probeDir probePath]. by rewrite Hback.
  - intros Hex f Hf Hstat.
    destruct (probeDirectory_some fs (ofSegments rs) (filenames config) f Hf Hstat)
      as [p Hp].
    exists p. fold (dirMatch fs config (ofSegments rs)) in Hp.
    pose proof Hp as (g & Hg & Hpg & Hreg)%probeDirectory_match.
    assert (ofSegments rs ∈ visitedDirs (walkBound (ofSegments (rs ++ ds)))
              (ofSegments rs) (ofSegments (rs ++ ds))) as Hroot.
    { rewrite Hvis. destruct (prefixesOfRev_last (rev ds)) as [front ->].
      rewrite fmap_app. apply elem_of_app. right. cbn. rewrite app_nil_r. by left. }
    split_and!; [|done| |done].
    + unfold findAgentsFilesUp. rewrite findAgentsFilesUpTraced_eq. cbn [fst].
      rewrite testedDirs_all, Hvis by done.
      destruct (prefixesOfRev_last (rev ds)) as [front ->].
      rewrite fmap_app, omap_app. cbn [fmap list_fmap omap list_omap].
      rewrite app_nil_r, Hp. by rewrite rev_unit.
    + rewrite Hpg. by apply Hback.
Qed.

Lemma root_directory_exclusion_witness :
  Path.dirname "/proj/src/AGENTS.md" ≠ ofSegments ["proj"] ∧
  ∃ p, head (findAgentsFilesUp (sampleFs ["/proj/AGENTS.md"; "/proj/src/AGENTS.md"])
               (ofSegments (["proj"] ++ ["src"; "api"])) (ofSegments ["proj"])
               (sampleConfig false)) = Some p ∧
       Path.dirname p = ofSegments ["proj"].
Proof.
  split.
  - destruct (root_directory_exclusion
                (sampleFs ["/proj/AGENTS.md"; "/proj/src/AGENTS.md"])
                ["proj"] ["src"; "api"] (sampleConfig true)) as [H _];
      [apply (bool_decide_unpack _); vm_compute; exact I ..|].
    destruct H as [H _]; [reflexivity|].
    apply H. apply (bool_decide_unpack _). vm_compute. exact I.
  - destruct (root_directory_exclusion
                (sampleFs ["/proj/AGENTS.md"; "/proj/src/AGENTS.md"])
                ["proj"] ["src"; "api"] (sampleConfig false)) as [_ H];
      [apply (bool_decide_unpack _); vm_compute; exact I ..|].
    destruct (H eq_refl "AGENTS.md") as (p & Hhead & _ & Hdir & _);
      [apply (bool_decide_unpack _); vm_compute; exact I | vm_compute; reflexivity |].
    exists p. split; assumption.
Defined.

(** * Further properties *)

(** ** The session table: deliveries, termination, growth *)

Section JsMapDelete.
Context {V : Type}.
Implicit Types (m : JsMap.t V) (k : string) (v : V).

Lemma keys_delete_NoDup k m :
  NoDup (JsMap.keys m) → k ∉ JsMap.keys (JsMap.delete k m).
Proof.
  unfold JsMap.keys. induction m as [|[k' v'] m IH]; csimpl.
  - intros _ H. inversion H.
  - intros [Hn Hd]%NoDup_cons. destruct (decide (k' = k)) as [->|Hne]; [done|].
    csimpl. intros [?|?]%elem_of_cons; [congruence|]. by apply IH.
Qed.

Lemma delete_absent k m : k ∉ JsMap.keys m → JsMap.delete k m = m.
Proof.
  unfold JsMap.keys. induction m as [|[k' v'] m IH]; csimpl; [done|].
  intros [Hne Hn]%not_elem_of_cons. rewrite decide_False by done. by rewrite IH.
Qed.

Lemma has_set_ne k k' v m : k ≠ k' → JsMap.has k' (JsMap.set k v m) = JsMap.has k' m.
Proof. intros Hne. unfold JsMap.has. by rewrite get_set_ne. Qed.
End JsMapDelete.

Lemma getSessionCache_tracked sid m :
  JsMap.has sid m = true → (getSessionCache sid m).1 = m.
Proof.
  intros Hhas. unfold getSessionCache. cbn [fst].
  rewrite Hhas, andb_false_r. cbn [negb]. by rewrite Hhas.
Qed.

(** A session other than the one looked up that is still tracked after
    the lookup has its entry as before. *)
Lemma getSessionCache_kept sid k m :
  NoDup (JsMap.keys m) → k ≠ sid →
  JsMap.has k (getSessionCache sid m).1 = true →
  JsMap.get k (getSessionCache sid m).1 = JsMap.get k m.
Proof.
  intros Hnd Hne. unfold getSessionCache. cbn [fst].
  match goal with |- context [negb (JsMap.has sid ?x)] => set (m1 := x) end.
  assert (JsMap.has k m1 = true → JsMap.get k m1 = JsMap.get k m) as H1.
  { subst m1. destruct (_ && _); [|done].
    destruct (JsMap.firstKey m) as [k0|] eqn:Hk0; [|done].
    destruct (decide (k0 = k)) as [->|Hk].
    - intros Hin%has_true_iff. by apply keys_delete_NoDup in Hin.
    - intros _. by apply get_delete_ne. }
  destruct (negb (JsMap.has sid m1)); [|done].
  rewrite has_set_ne, get_set_ne by congruence. done.
Qed.

Lemma addInjected_other sid p k m :
  k ≠ sid → JsMap.get k (addInjected sid p m) = JsMap.get k m.
Proof.
  intros Hne. unfold addInjected. destruct (JsMap.get sid m); [|done].
  by rewrite get_set_ne by congruence.
Qed.

Lemma addInjected_same sid p m c :
  JsMap.get sid m = Some c →
  JsMap.get sid (addInjected sid p m)
    = Some {| injectedPaths := JsSet.add p (injectedPaths c) |}.
Proof. intros Hg. unfold addInjected. rewrite Hg. apply get_set_eq. Qed.

Lemma elem_of_JsSet_add p q (s : JsSet.t) : q ∈ JsSet.add p s ↔ q = p ∨ q ∈ s.
Proof.
  unfold JsSet.add. destruct (JsSet.has p s) eqn:Hp.
  - apply JsSet_has_true in Hp. naive_solver.
  - rewrite elem_of_app, list_elem_of_singleton. naive_solver.
Qed.

Lemma JsSet_add_idem p (s : JsSet.t) : JsSet.add p (JsSet.add p s) = JsSet.add p s.
Proof.
  unfold JsSet.add at 1.
  assert (JsSet.has p (JsSet.add p s) = true) as ->; [|done].
  apply JsSet_has_true, elem_of_JsSet_add. by left.
Qed.

(** X1.  Marking a path as delivered makes it delivered for that
    session at once, for every state of the table, and doing so twice
    changes nothing more; a session that was not tracked before has
    exactly that one delivered path afterwards.  Every other session that
    is still tracked keeps its entry. *)
Theorem delivered_after_mark sid p m :
  let m' := cacheStep m (OpMarkDelivered sid p) in
  JsSet.has p (injectedOf sid m') = true ∧
  cacheStep m' (OpMarkDelivered sid p) = m' ∧
  (JsMap.has sid m = false → injectedOf sid m = [] ∧ injectedOf sid m' = [p]) ∧
  (∀ other, NoDup (JsMap.keys m) → other ≠ sid → JsMap.has other m' = true →
            JsMap.get other m' = JsMap.get other m).
Proof.
  intros m'. subst m'. cbn [cacheStep].
  pose proof (getSessionCache_get sid m) as Hget.
  set (m1 := (getSessionCache sid m).1) in *. set (c := (getSessionCache sid m).2) in *.
  pose proof (addInjected_same sid p m1 c Hget) as Hget'.
  split_and!.
  - apply JsSet_has_true. rewrite (injectedOf_get _ _ _ Hget'). cbn [injectedPaths].
    apply elem_of_JsSet_add. by left.
  - rewrite getSessionCache_tracked by (unfold JsMap.has; by rewrite Hget').
    unfold addInjected at 1. rewrite Hget'. cbn [injectedPaths].
    rewrite JsSet_add_idem. apply set_same. done.
  - intros Hfresh. split.
    + unfold injectedOf. unfold JsMap.has in Hfresh. by destruct (JsMap.get sid m).
    + rewrite (injectedOf_get _ _ _ Hget'). cbn [injectedPaths]. subst c.
      by rewrite getSessionCache_fresh.
  - intros other Hnd Hne Hhas.
    rewrite addInjected_other by done.
    apply getSessionCache_kept; [done|done|].
    unfold JsMap.has in *. by rewrite addInjected_other in Hhas.
Qed.

Lemma delivered_after_mark_witness :
  JsMap.get "a" (cacheStep [("a", emptySession)] (OpMarkDelivered "b" "/p/AGENTS.md"))
  = JsMap.get "a" [("a", emptySession)].
Proof.
  destruct (delivered_after_mark "b" "/p/AGENTS.md" [("a", emptySession)])
    as (_ & _ & _ & H).
  apply H; [apply (bool_decide_unpack _); vm_compute; exact I | discriminate
           | vm_compute; reflexivity].
Defined.

(** X2.  A lookup of a session that is tracked changes nothing in the
    table, also when the table is full, and returns the stored entry. *)
Theorem lookup_of_tracked_session sid m c :
  JsMap.get sid m = Some c → getSessionCache sid m = (m, c).
Proof.
  intros Hg. assert (JsMap.has sid m = true) as Hhas
    by (unfold JsMap.has; by rewrite Hg).
  pose proof (getSessionCache_get sid m) as Hget.
  rewrite getSessionCache_tracked in Hget by done.
  rewrite (surjective_pairing (getSessionCache sid m)).
  rewrite getSessionCache_tracked by done. f_equal. congruence.
Qed.

Lemma lookup_of_tracked_session_witness :
  getSessionCache "session-0" (cacheRun (OpGetOrCreate <$> sampleSessions 100))
  = (cacheRun (OpGetOrCreate <$> sampleSessions 100), emptySession).
Proof.
  apply (lookup_of_tracked_session "session-0"
           (cacheRun (OpGetOrCreate <$> sampleSessions 100)) emptySession).
  vm_compute. reflexivity.
Defined.

(** X3.  As long as a session stays tracked its delivered set only
    grows: no operation on the table removes a path from the set of a
    session that is tracked before and after it. *)
Theorem delivered_set_grows sid m o q :
  NoDup (JsMap.keys m) →
  JsMap.has sid m = true → JsMap.has sid (cacheStep m o) = true →
  q ∈ injectedOf sid m → q ∈ injectedOf sid (cacheStep m o).
Proof.
  intros Hnd Hbefore Hafter Hq.
  assert (∀ s, s ≠ sid →
            JsMap.get sid (getSessionCache s m).1 = JsMap.get sid m ∨
            JsMap.has sid (getSessionCache s m).1 = false) as Hlookup.
  { intros s Hs. destruct (JsMap.has sid (getSessionCache s m).1) eqn:E; [left|by right].
    by apply getSessionCache_kept. }
  destruct o as [s|s p|s]; cbn [cacheStep] in *.
  - destruct (decide (s = sid)) as [->|Hs].
    + by rewrite getSessionCache_tracked.
    + destruct (Hlookup s Hs) as [Heq|Hgone]; [|congruence].
      unfold injectedOf in *. by rewrite Heq.
  - destruct (decide (s = sid)) as [->|Hs].
    + rewrite getSessionCache_tracked in * by done.
      unfold JsMap.has in Hbefore. destruct (JsMap.get sid m) as [c|] eqn:Hg; [|done].
      rewrite (injectedOf_get _ _ _ (addInjected_same sid p m c Hg)).
      cbn [injectedPaths]. apply elem_of_JsSet_add. right.
      by rewrite (injectedOf_get _ _ _ Hg) in Hq.
    + unfold JsMap.has in Hafter. rewrite addInjected_other in Hafter by done.
      unfold injectedOf. rewrite addInjected_other by done.
      destruct (Hlookup s Hs) as [Heq|Hgone].
      * unfold injectedOf in Hq. by rewrite Heq.
      * unfold JsMap.has in Hgone.
        destruct (JsMap.get sid (getSessionCache s m).1); done.
  - unfold sessionShutdown in *. destruct (decide (s = sid)) as [->|Hs].
    + apply has_true_iff in Hafter. by apply keys_delete_NoDup in Hafter.
    + unfold injectedOf in *. by rewrite get_delete_ne.
Qed.

Lemma delivered_set_grows_witness :
  "/p/AGENTS.md" ∈
    injectedOf "a"
      (cacheStep [("a", {| injectedPaths := ["/p/AGENTS.md"] |})]
         (OpMarkDelivered "a" "/p/src/AGENTS.md")).
Proof.
  apply (delivered_set_grows "a" [("a", {| injectedPaths := ["/p/AGENTS.md"] |})]
           (OpMarkDelivered "a" "/p/src/AGENTS.md") "/p/AGENTS.md");
    [apply (bool_decide_unpack _); vm_compute; exact I
    | vm_compute; reflexivity | vm_compute; reflexivity
    | apply (bool_decide_unpack _); vm_compute; exact I].
Defined.

(** X4.  Session shutdown removes the session's entry and nothing else;
    for a session that is not tracked it changes nothing; after it, a
    lookup of the session starts from an empty set. *)
Theorem shutdown_forgets_session sid m :
  NoDup (JsMap.keys m) →
  JsMap.has sid (sessionShutdown sid m) = false ∧
  (∀ other, other ≠ sid →
     JsMap.get other (sessionShutdown sid m) = JsMap.get other m) ∧
  (JsMap.has sid m = false → sessionShutdown sid m = m) ∧
  (JsMap.has sid m = true →
     JsMap.size (sessionShutdown sid m) + 1 = JsMap.size m) ∧
  injectedPaths (getSessionCache sid (sessionShutdown sid m)).2 = [].
Proof.
  intros Hnd. unfold sessionShutdown.
  assert (JsMap.has sid (JsMap.delete sid m) = false) as Hgone
    by (by apply has_false_iff, keys_delete_NoDup).
  split_and!.
  - done.
  - intros other Hne. by apply get_delete_ne.
  - intros Hno. by apply delete_absent, has_false_iff.
  - intros Hyes. apply has_true_iff in Hyes. clear Hgone Hnd.
    unfold JsMap.size, JsMap.keys in *.
    induction m as [|[k v] m IH]; csimpl in *; [inversion Hyes|].
    destruct (decide (k = sid)) as [->|Hne]; csimpl; [lia|].
    rewrite <- IH; [lia|]. by apply elem_of_cons in Hyes as [?|?].
  - by rewrite getSessionCache_fresh.
Qed.

Lemma shutdown_forgets_session_witness :
  JsMap.has "a"
    (sessionShutdown "a" [("a", {| injectedPaths := ["/p/AGENTS.md"] |}); ("b", emptySession)])
  = false.
Proof.
  apply (shutdown_forgets_session "a"
           [("a", {| injectedPaths := ["/p/AGENTS.md"] |}); ("b", emptySession)]).
  apply (bool_decide_unpack _). vm_compute. exact I.
Defined.

(** ** The read hook: skipped events, single delivery, other sessions *)

Lemma hookRuns_true {Details} (h : Host) (event : ToolResultEvent Details) :
  hookRuns h event = true →
  ∃ filePath, toolName event = "read" ∧ inputPath event = JsString filePath ∧
              filePath ≠ "" ∧ hookAccepts h filePath = true.
Proof.
  unfold hookRuns. destruct (inputPath event) as [|filePath|]; [done| |done].
  intros [[Ht Hn]%andb_true_iff Ha]%andb_true_iff. exists filePath.
  apply bool_decide_eq_true in Ht.
  apply negb_true_iff, bool_decide_eq_false in Hn. done.
Qed.

Lemma accumulated_not_run {Details} (h : Host) sid (event : ToolResultEvent Details) m :
  hookRuns h event = false → accumulated h sid event m = [].
Proof.
  unfold hookRuns, accumulated. destruct (inputPath event); [done| |done].
  by intros ->.
Qed.

Lemma onToolResult_not_run {Details} (h : Host) sid (event : ToolResultEvent Details) m :
  hookRuns h event = false → caches (onToolResult h sid event m) = m.
Proof.
  unfold hookRuns, onToolResult.
  destruct (inputPath event) as [|filePath|]; [by case_bool_decide| |by case_bool_decide].
  case_bool_decide as Htool; cbn [negb andb]; [|done].
  case_bool_decide as Hne; cbn [negb andb]; [done|].
  fold (absolutePathOf h filePath). fold (hookAccepts h filePath).
  by intros ->.
Qed.

Lemma onToolResult_run_caches {Details} (h : Host) sid (event : ToolResultEvent Details) m :
  hookRuns h event = true →
  caches (onToolResult h sid event m) =
    JsMap.set sid
      {| injectedPaths := injectedOf sid m ++ accumulated h sid event m |}
      (getSessionCache sid m).1.
Proof.
  intros Hrun. pose proof Hrun as (filePath & Htool & Hin & Hne & Hacc)%hookRuns_true.
  rewrite (onToolResult_accepted h sid event m filePath Htool Hin Hne Hacc).
  cbn [caches]. unfold accumulated. rewrite Hin, Hacc.
  rewrite bool_decide_eq_true_2, bool_decide_eq_false_2 by done. cbn [negb andb].
  by rewrite getSessionCache_injectedOf.
Qed.

Lemma deliverable_nil fs seen files :
  (∀ p, p ∈ files → p ∈ seen ∨ readFileSync fs p = None) →
  deliverable fs seen files = [].
Proof.
  intros Hall. destruct (deliverable fs seen files) as [|p l] eqn:Hd; [done|].
  assert (p ∈ deliverable fs seen files) as Hp by (rewrite Hd; by left).
  apply elem_of_deliverable in Hp as (Hin & Hnew & Hread).
  destruct (Hall p Hin) as [?|Hnone]; [done|]. rewrite Hnone in Hread. by destruct Hread.
Qed.

(** X5.  An event that is not a read, or that has no path, a path that
    is not a string or an empty path, is passed over in silence: nothing
    is returned, the table is left as it was and nothing is logged. *)
Theorem unusable_event_is_ignored {Details} (h : Host) sid
    (event : ToolResultEvent Details) m :
  toolName event ≠ "read" ∨ (∀ filePath, inputPath event = JsString filePath → filePath = "") →
  onToolResult h sid event m = {| returned := None; caches := m; console := [] |}.
Proof.
  intros [Htool|Hpath]; unfold onToolResult.
  - by rewrite bool_decide_eq_false_2 by done.
  - case_bool_decide; cbn [negb]; [|done].
    destruct (inputPath event) as [|filePath|]; [done| |done].
    by rewrite bool_decide_eq_true_2 by (by apply Hpath).
Qed.

Lemma unusable_event_is_ignored_witness :
  onToolResult (sampleHost "/proj" ["/proj/src/AGENTS.md"] true) "s1"
    {| toolName := "bash"; inputPath := JsString "/proj/src/a.ts"; content := [];
       details := (); isError := false |} []
  = {| returned := None; caches := []; console := [] |}.
Proof.
  apply (unusable_event_is_ignored (sampleHost "/proj" ["/proj/src/AGENTS.md"] true) "s1").
  left. discriminate.
Defined.

(** X6.  A fragment is delivered to a session at most once: a path
    accumulated by one run of the hook is not accumulated by any later
    run on the table that run left, whatever file is read then; and the
    same read repeated at once returns nothing. *)
Theorem fragment_delivered_once {Details} (h : Host) sid
    (event : ToolResultEvent Details) m :
  (∀ (later : ToolResultEvent Details) p,
     p ∈ accumulated h sid event m →
     p ∉ accumulated h sid later (caches (onToolResult h sid event m))) ∧
  returned (onToolResult h sid event (caches (onToolResult h sid event m))) = None.
Proof.
  destruct (hookRuns h event) eqn:Hrun.
  - pose proof Hrun as (filePath & Htool & Hin & Hne & Hacc)%hookRuns_true.
    assert (∀ p, p ∈ hookFragments h filePath →
                 p ∈ injectedOf sid (caches (onToolResult h sid event m))
                 ∨ readFileSync (hostFs h) p = None) as Hdone.
    { intros p Hp. destruct (readFileSync (hostFs h) p) eqn:Hread; [left|by right].
      apply (onToolResult_caches h sid event m filePath p Htool Hin Hne Hacc).
      right. split; [done|]. rewrite Hread. by eexists. }
    split.
    + intros later p Hp Hagain.
      apply (elem_of_accumulated h sid event m filePath p Htool Hin Hne Hacc)
        in Hp as (Hfrag & _ & Hread).
      destruct (hookRuns h later) eqn:Hlater;
        [|by rewrite accumulated_not_run in Hagain by done; inversion Hagain].
      pose proof Hlater as (fp & Ht2 & Hi2 & Hn2 & Ha2)%hookRuns_true.
      apply (elem_of_accumulated h sid later _ fp p Ht2 Hi2 Hn2 Ha2)
        in Hagain as (_ & Hnew & _).
      destruct (Hdone p Hfrag) as [?|Hnone]; [done|].
      rewrite Hnone in Hread. by destruct Hread.
    + rewrite onToolResult_returned.
      assert (accumulated h sid event (caches (onToolResult h sid event m)) = []) as ->;
        [|done].
      unfold accumulated. rewrite Hin, Hacc.
      rewrite bool_decide_eq_true_2, bool_decide_eq_false_2 by done. cbn [negb andb].
      apply deliverable_nil. intros p Hp. rewrite getSessionCache_injectedOf.
      by apply Hdone.
  - split.
    + intros later p Hp. rewrite accumulated_not_run in Hp by done. inversion Hp.
    + rewrite onToolResult_returned, accumulated_not_run; done.
Qed.

Lemma fragment_delivered_once_witness :
  "/proj/src/AGENTS.md" ∉
    accumulated (sampleHost "/proj" ["/proj/src/AGENTS.md"] true) "s1"
      (readEvent "/proj/src/api/y.ts" [])
      (caches (onToolResult (sampleHost "/proj" ["/proj/src/AGENTS.md"] true) "s1"
                 (readEvent "/proj/src/api/x.ts" []) [])).
Proof.
  destruct (fragment_delivered_once (sampleHost "/proj" ["/proj/src/AGENTS.md"] true)
              "s1" (readEvent "/proj/src/api/x.ts" []) []) as [H _].
  apply H. apply (bool_decide_unpack _). vm_compute. exact I.
Defined.

(** X7.  A run of the hook for one session leaves the entry of every
    other session that is still tracked as it was; only an eviction by
    the lookup can remove another session. *)
Theorem hook_leaves_other_sessions {Details} (h : Host) sid
    (event : ToolResultEvent Details) m other :
  NoDup (JsMap.keys m) → other ≠ sid →
  JsMap.has other (caches (onToolResult h sid event m)) = true →
  JsMap.get other (caches (onToolResult h sid event m)) = JsMap.get other m.
Proof.
  intros Hnd Hne. destruct (hookRuns h event) eqn:Hrun.
  - rewrite onToolResult_run_caches by done.
    rewrite has_set_ne, get_set_ne by congruence.
    by apply getSessionCache_kept.
  - by rewrite onToolResult_not_run by done.
Qed.

Lemma hook_leaves_other_sessions_witness :
  JsMap.get "s0"
    (caches (onToolResult (sampleHost "/proj" ["/proj/src/AGENTS.md"] true) "s1"
               (readEvent "/proj/src/api/x.ts" [])
               [("s0", {| injectedPaths := ["/proj/lib/AGENTS.md"] |})]))
  = JsMap.get "s0" [("s0", {| injectedPaths := ["/proj/lib/AGENTS.md"] |})].
Proof.
  apply (hook_leaves_other_sessions (sampleHost "/proj" ["/proj/src/AGENTS.md"] true)
           "s1" (readEvent "/proj/src/api/x.ts" [])
           [("s0", {| injectedPaths := ["/proj/lib/AGENTS.md"] |})] "s0");
    [apply (bool_decide_unpack _); vm_compute; exact I | discriminate
    | vm_compute; reflexivity].
Defined.

(** X8.  The hook keeps the table within its capacity and its keys
    unique, for every event. *)
Theorem hook_keeps_capacity {Details} (h : Host) sid
    (event : ToolResultEvent Details) m :
  NoDup (JsMap.keys m) → JsMap.size m ≤ MAX_CACHED_SESSIONS →
  NoDup (JsMap.keys (caches (onToolResult h sid event m))) ∧
  JsMap.size (caches (onToolResult h sid event m)) ≤ MAX_CACHED_SESSIONS.
Proof.
  intros Hnd Hsz. destruct (hookRuns h event) eqn:Hrun.
  - rewrite onToolResult_run_caches by done.
    pose proof (getSessionCache_tableOk sid m (conj Hnd Hsz)) as [Hnd' Hsz'].
    rewrite size_keys, keys_set_old by (apply has_true_iff, getSessionCache_has).
    by rewrite <- size_keys.
  - by rewrite onToolResult_not_run by done.
Qed.

Lemma hook_keeps_capacity_witness :
  JsMap.size
    (caches (onToolResult (sampleHost "/proj" ["/proj/src/AGENTS.md"] true) "new"
               (readEvent "/proj/src/api/x.ts" [])
               (cacheRun (OpGetOrCreate <$> sampleSessions 100))))
  ≤ MAX_CACHED_SESSIONS.
Proof.
  apply (hook_keeps_capacity (sampleHost "/proj" ["/proj/src/AGENTS.md"] true) "new"
           (readEvent "/proj/src/api/x.ts" [])
           (cacheRun (OpGetOrCreate <$> sampleSessions 100)));
    [apply (bool_decide_unpack _); vm_compute; exact I | vm_compute; lia].
Defined.

(** ** The resolver: what is returned, and where the walk goes *)

Lemma startsWith_refl s : Js.startsWith s s = true.
Proof. apply startsWith_iff. exists "". by rewrite append_nil_r. Qed.

(** X9.  Every path [findAgentsFilesUp] returns names a regular file: it
    is a candidate filename joined to a directory of the walk, which is
    not the root when [excludeRoot] is set, and [statSync] reported a
    file there; a name that exists as a directory is never returned.
    When no candidate names a regular file in any directory of the walk,
    the result is empty. *)
Theorem returned_paths_are_regular_files fs startDir rootDir config :
  (∀ p, p ∈ findAgentsFilesUp fs startDir rootDir config →
     statSync fs p = Some true ∧
     ∃ d f, d ∈ visitedDirs (walkBound startDir) rootDir startDir ∧
            f ∈ filenames config ∧ p = Path.join d f ∧
            (excludeRoot config = true → d ≠ rootDir)) ∧
  ((∀ d f, d ∈ visitedDirs (walkBound startDir) rootDir startDir →
           f ∈ filenames config → statSync fs (Path.join d f) ≠ Some true) →
   findAgentsFilesUp fs startDir rootDir config = []).
Proof.
  unfold findAgentsFilesUp. rewrite findAgentsFilesUpTraced_eq. cbn [fst]. split.
  - intros p Hp. apply list_elem_of_In, in_rev, list_elem_of_In in Hp.
    apply list_elem_of_omap in Hp as (d & Hd & Hmatch).
    apply elem_of_testedDirs in Hd as [Hd Htested].
    apply probeDirectory_match in Hmatch as (f & Hf & -> & Hreg).
    split; [done|]. exists d, f. split_and!; [done|done|done|].
    intros Hex. destruct Htested; congruence.
  - intros Hnone.
    destruct (omap (dirMatch fs config)
                (testedDirs config (walkBound startDir) rootDir startDir))
      as [|p l] eqn:Hl; [done|].
    assert (p ∈ omap (dirMatch fs config)
                  (testedDirs config (walkBound startDir) rootDir startDir)) as Hp
      by (rewrite Hl; by left).
    apply list_elem_of_omap in Hp as (d & Hd & Hmatch).
    apply elem_of_testedDirs in Hd as [Hd _].
    apply probeDirectory_match in Hmatch as (f & Hf & -> & Hreg).
    by destruct (Hnone d f Hd Hf).
Qed.

Lemma returned_paths_are_regular_files_witness :
  statSync (sampleFsWithDirs ["/proj/src/CLAUDE.md"] ["/proj/src/AGENTS.md"])
    "/proj/src/CLAUDE.md" = Some true ∧
  ("/proj/src/AGENTS.md" ∉
     findAgentsFilesUp (sampleFsWithDirs ["/proj/src/CLAUDE.md"] ["/proj/src/AGENTS.md"])
       "/proj/src/api" "/proj" (sampleConfig false)) ∧
  findAgentsFilesUp (sampleFs []) "/proj/src/api" "/proj" (sampleConfig false) = [].
Proof.
  split_and!.
  - destruct (returned_paths_are_regular_files
                (sampleFsWithDirs ["/proj/src/CLAUDE.md"] ["/proj/src/AGENTS.md"])
                "/proj/src/api" "/proj" (sampleConfig false)) as [H _].
    apply (H "/proj/src/CLAUDE.md").
    apply (bool_decide_unpack _). vm_compute. exact I.
  - intros Hin.
    destruct (returned_paths_are_regular_files
                (sampleFsWithDirs ["/proj/src/CLAUDE.md"] ["/proj/src/AGENTS.md"])
                "/proj/src/api" "/proj" (sampleConfig false)) as [H _].
    destruct (H "/proj/src/AGENTS.md" Hin) as [Hreg _].
    vm_compute in Hreg. discriminate Hreg.
  - destruct (returned_paths_are_regular_files (sampleFs []) "/proj/src/api" "/proj"
                (sampleConfig false)) as [_ H].
    apply H. intros d f _ _. discriminate.
Defined.

(** X10.  When the start directory does not begin with the root string,
    the walk does not go up: the filenames are tested in the start
    directory, which is outside the workspace, and nowhere else, also
    with [excludeRoot]. *)
Theorem start_outside_root fs startDir rootDir config :
  Js.startsWith startDir rootDir = false →
  findAgentsFilesUpTraced fs startDir rootDir config =
    (option_list (dirMatch fs config startDir), dirProbes fs config startDir).
Proof.
  intros Hout.
  assert (startDir ≠ rootDir) as Hne
    by (intros ->; by rewrite startsWith_refl in Hout).
  rewrite findAgentsFilesUpTraced_eq.
  unfold walkBound. rewrite Nat.add_succ_r, testedDirs_step.
  assert (isTested config rootDir startDir = true) as ->
    by (unfold isTested; by rewrite bool_decide_eq_false_2 by done).
  assert (walkStops rootDir startDir = true) as ->
    by (unfold walkStops; rewrite Hout; by rewrite orb_true_r).
  cbn [app omap list_omap mbind list_bind]. rewrite app_nil_r.
  by destruct (dirMatch fs config startDir).
Qed.

Lemma start_outside_root_witness :
  findAgentsFilesUpTraced (sampleFs ["/etc/AGENTS.md"; "/AGENTS.md"]) "/etc" "/proj"
    (sampleConfig true)
  = (["/etc/AGENTS.md"], [mkProbe "/etc" "AGENTS.md"]).
Proof.
  rewrite (start_outside_root (sampleFs ["/etc/AGENTS.md"; "/AGENTS.md"]) "/etc" "/proj"
             (sampleConfig true)); [vm_compute; reflexivity | vm_compute; reflexivity].
Defined.

(** ** Truncation: how much is kept *)

(** X12.  When a content is truncated, at least four fifths of
    [maxSize] characters of it are kept, and at most [maxSize]. *)
Theorem truncation_keeps_four_fifths cwd content maxSize filePath rootDir :
  (0 ≤ maxSize)%Z → (maxSize < Z.of_nat (Js.length content))%Z →
  ∃ kept rest,
    truncateContent cwd content maxSize filePath rootDir
      = kept +:+ truncationNote (Path.relative cwd rootDir filePath) ∧
    content = kept +:+ rest ∧
    (4 * maxSize ≤ 5 * Z.of_nat (Js.length kept))%Z ∧
    (Z.of_nat (Js.length kept) ≤ maxSize)%Z.
Proof.
  intros Hmax Hlong. rewrite truncateContent_long by done.
  set (k := if _ : bool then _ else _).
  exists (Js.take k content), (Js.drop k content).
  split_and!; [done | by rewrite take_drop | |]; rewrite length_take; subst k;
    destruct (_ <? _)%Z eqn:E;
    destruct (lastBoundary_spec (Js.take (Z.to_nat maxSize) content))
      as [[HL _]|(r & HL & _ & Hr & _)]; rewrite HL in *;
    rewrite ?length_take in *; lia.
Qed.

Lemma truncation_keeps_four_fifths_witness :
  ∃ kept rest,
    truncateContent "/" longRuleSample 40 "/proj/AGENTS.md" "/proj"
      = kept +:+ truncationNote "AGENTS.md" ∧
    longRuleSample = kept +:+ rest ∧
    (4 * 40 ≤ 5 * Z.of_nat (Js.length kept))%Z.
Proof.
  destruct (truncation_keeps_four_fifths "/" longRuleSample 40 "/proj/AGENTS.md" "/proj")
    as (kept & rest & H1 & H2 & H3 & _); [lia | vm_compute; reflexivity|].
  exists kept, rest. split_and!; assumption.
Defined.

(** ** Canonical paths: the whole result, and the path test *)

Section RevFacts.
Context {A B : Type}.

Lemma omap_rev (f : A → option B) (l : list A) : omap f (rev l) = rev (omap f l).
Proof.
  induction l as [|a l IH]; [done|]. cbn [rev omap list_omap].
  rewrite omap_app, IH. cbn [omap list_omap].
  destruct (f a); cbn [rev]; by rewrite ?app_nil_r.
Qed.

Lemma filter_rev (P : A → Prop) `{∀ x, Decision (P x)} (l : list A) :
  filter P (rev l) = rev (filter P l).
Proof.
  induction l as [|a l IH]; [done|]. cbn [rev].
  rewrite filter_app, IH, !filter_cons, filter_nil.
  destruct (decide (P a)); cbn [rev]; by rewrite ?app_nil_r.
Qed.

Lemma fmap_rev (f : A → B) (l : list A) : f <$> rev l = rev (f <$> l).
Proof.
  induction l as [|a l IH]; [done|]. cbn [rev fmap list_fmap].
  by rewrite fmap_app, IH.
Qed.
End RevFacts.

Lemma prefixesOfRev_take (ds : list string) :
  prefixesOfRev (rev ds) = rev ((λ k, take k ds) <$> seq 0 (S (length ds))).
Proof.
  induction ds as [|x ds IH] using rev_ind; [done|].
  rewrite rev_unit. cbn [prefixesOfRev]. rewrite IH.
  rewrite length_app. cbn [length]. rewrite Nat.add_1_r.
  rewrite (seq_S (S (length ds))), fmap_app.
  change ((λ k, take k (ds ++ [x])) <$> [0 + S (length ds)])
    with [take (0 + S (length ds)) (ds ++ [x])].
  rewrite rev_unit. f_equal.
  - cbn [rev]. rewrite rev_involutive.
    rewrite take_ge; [done|]. rewrite length_app. cbn [length]. lia.
  - f_equal. apply list_fmap_ext. intros i k Hk.
    apply lookup_seq in Hk as [-> Hk]. rewrite take_app_le; [done | lia].
Qed.

Lemma filter_keep_all {A} (P : A → Prop) `{∀ x, Decision (P x)} (l : list A) :
  Forall P l → filter P l = l.
Proof.
  induction 1 as [|x l Hx Hl IH]; [done|]. by rewrite filter_cons_True, IH.
Qed.

(** From a canonical directory the filenames are tested in the
    directories from the start directory up to the root, or up to the
    directory below the root with [excludeRoot]. *)
Lemma testedDirs_canonical rs ds config :
  Forall (λ s, plainName s = true) rs →
  Forall (λ s, plainName s = true) ds →
  testedDirs config (walkBound (ofSegments (rs ++ ds))) (ofSegments rs)
    (ofSegments (rs ++ ds)) =
    rev ((λ k, ofSegments (rs ++ take k ds))
           <$> seq (if excludeRoot config then 1 else 0)
                   (if excludeRoot config then length ds else S (length ds))).
Proof.
  intros Hrs Hds.
  pose proof (walkMeasure_bound (ofSegments (rs ++ ds))) as Hfuel.
  pose proof (visitedDirs_canonical rs (rev ds) (walkBound (ofSegments (rs ++ ds))) Hrs)
    as Hvis.
  rewrite rev_involutive in Hvis. specialize (Hvis (Forall_rev Hds) Hfuel).
  unfold testedDirs. rewrite Hvis, prefixesOfRev_take.
  rewrite fmap_rev, filter_rev. f_equal.
  rewrite <- list_fmap_compose.
  destruct (excludeRoot config) eqn:Hex.
  - cbn [seq fmap list_fmap compose]. rewrite filter_cons_False.
    + apply filter_keep_all. apply Forall_fmap, Forall_forall.
      intros k [Hk1 Hk2]%elem_of_seq. cbn [compose].
      unfold isTested. rewrite Hex, orb_false_r. apply Is_true_true, negb_true_iff.
      apply bool_decide_eq_false, ofSegments_app_ne.
      * by apply Forall_take.
      * intros Hnil. apply (f_equal length) in Hnil.
        rewrite length_take_le in Hnil by lia. cbn in Hnil. lia.
    + unfold isTested. rewrite Hex, orb_false_r, take_0, app_nil_r.
      rewrite bool_decide_eq_true_2 by done. by intros [].
  - apply filter_keep_all, Forall_forall. intros d _.
    unfold isTested. by rewrite Hex, orb_true_r.
Qed.

(** X11.  For a canonical root and a canonical start directory equal to
    it or below it, the result of [findAgentsFilesUp] is: for each
    directory from the root (or from the directory below it, with
    [excludeRoot]) down to the start directory, the match of that
    directory when it has one, in this order, and nothing else. *)
Theorem resolve_canonical_result fs rs ds config :
  Forall (λ s, plainName s = true) rs →
  Forall (λ s, plainName s = true) ds →
  findAgentsFilesUp fs (ofSegments (rs ++ ds)) (ofSegments rs) config =
    omap (dirMatch fs config)
      ((λ k, ofSegments (rs ++ take k ds))
         <$> seq (if excludeRoot config then 1 else 0)
                 (if excludeRoot config then length ds else S (length ds))).
Proof.
  intros Hrs Hds. unfold findAgentsFilesUp.
  rewrite findAgentsFilesUpTraced_eq. cbn [fst].
  rewrite testedDirs_canonical by done.
  by rewrite omap_rev, rev_involutive.
Qed.

Lemma resolve_canonical_result_witness :
  findAgentsFilesUp (sampleFs ["/proj/AGENTS.md"; "/proj/src/AGENTS.md"])
    (ofSegments (["proj"] ++ ["src"; "api"])) (ofSegments ["proj"]) (sampleConfig false)
  = ["/proj/AGENTS.md"; "/proj/src/AGENTS.md"].
Proof.
  rewrite (resolve_canonical_result (sampleFs ["/proj/AGENTS.md"; "/proj/src/AGENTS.md"])
             ["proj"] ["src"; "api"] (sampleConfig false));
    [vm_compute; reflexivity | apply (bool_decide_unpack _); vm_compute; exact I ..].
Defined.

Lemma segments_join_app segs t :
  Forall (λ s, hasSlash s = false) segs → segs ≠ [] →
  Path.segments (Js.join "/" segs +:+ String Path.slash t) = segs ++ Path.segments t.
Proof.
  induction segs as [|x [|y segs] IH]; [done| |].
  - intros [Hx _]%Forall_cons _. cbn [Js.join app]. by apply segments_app_slash.
  - intros [Hx Hrest]%Forall_cons _. rewrite join_cons2, slash_append.
    rewrite append_assoc, append_cons.
    rewrite (segments_app_slash x) by done.
    by rewrite IH.
Qed.

Lemma normalizeSegments_plain_app b acc segs rest :
  Forall (λ s, plainName s = true) segs →
  Path.normalizeSegments b acc (segs ++ rest)
    = Path.normalizeSegments b (rev segs ++ acc) rest.
Proof.
  revert acc. induction segs as [|x segs IH]; intros acc; [done|].
  intros [Hx Hrest]%Forall_cons. apply plainName_inv in Hx as (H1 & H2 & H3 & _).
  rewrite <- app_comm_cons. cbn [Path.normalizeSegments].
  rewrite !bool_decide_eq_false_2 by done. cbn [orb].
  rewrite IH by done. cbn [rev]. by rewrite <- app_assoc.
Qed.

(** [path.resolve] leaves a canonical absolute path as it is. *)
Lemma resolve_canonical cwd segs :
  Forall (λ s, plainName s = true) segs →
  Path.resolve cwd (ofSegments segs) = ofSegments segs.
Proof.
  intros Hsegs. unfold Path.resolve.
  assert (Path.isAbsolute (ofSegments segs) = true) as -> by done.
  cbv beta iota zeta. cbn [negb]. unfold Path.normalizeString.
  assert (ofSegments segs = String Path.slash (Js.join "/" segs)) as Heq by reflexivity.
  rewrite Heq at 1. rewrite (append_cons Path.slash (Js.join "/" segs) "/").
  cbn [Path.segments]. rewrite decide_True by done. cbn [Path.normalizeSegments].
  rewrite bool_decide_eq_true_2 by done. cbn [orb].
  destruct segs as [|x segs]; [reflexivity|].
  rewrite slash_append, segments_join_app by (by apply plain_noSlash || done).
  rewrite normalizeSegments_plain_app by done.
  cbn [Path.segments Path.normalizeSegments].
  rewrite bool_decide_eq_true_2 by done. cbn [orb Path.normalizeSegments].
  by rewrite app_nil_r, rev_involutive.
Qed.

Lemma join_last_not_slash ds :
  Forall (λ s, plainName s = true) ds → ds ≠ [] →
  ∀ pre, Path.isSlashAt (pre +:+ Js.join "/" ds)
           (String.length (pre +:+ Js.join "/" ds) - 1) = false.
Proof.
  intros Hds Hne pre.
  induction ds as [|x ds _] using rev_ind; [done|].
  apply Forall_app in Hds as [Hds Hx%Forall_inv].
  apply plainName_inv in Hx as (Hx1 & _ & _ & Hx4).
  assert (0 < String.length x) by (destruct x; [done | cbn; lia]).
  assert (∃ before, pre +:+ Js.join "/" (ds ++ [x]) = before +:+ x) as [before ->].
  { destruct ds as [|y ds]; [by exists pre|].
    exists (pre +:+ Js.join "/" (y :: ds) +:+ "/").
    rewrite join_snoc by done. by rewrite !append_assoc. }
  rewrite string_length_append.
  replace (String.length before + String.length x - 1)
    with (String.length before + (String.length x - 1)) by lia.
  rewrite isSlashAt_app_r. by apply isSlashAt_noSlash.
Qed.

(** Joining a canonical directory and a relative path of plain names. *)
Lemma join_relative rs ds :
  Forall (λ s, plainName s = true) rs → Forall (λ s, plainName s = true) ds →
  ds ≠ [] →
  Path.join (ofSegments rs) (Js.join "/" ds) = ofSegments (rs ++ ds).
Proof.
  intros Hrs Hds Hne.
  assert (Js.join "/" ds ≠ "") as Hjd by (by apply join_nonempty).
  assert (Forall (λ s, plainName s = true) (rs ++ ds)) as Hall by (by apply Forall_app).
  unfold Path.join.
  rewrite (bool_decide_eq_false_2 (ofSegments rs = "")) by done.
  rewrite (bool_decide_eq_false_2 (Js.join "/" ds = "")) by done.
  unfold Path.normalize. cbv zeta.
  rewrite bool_decide_eq_false_2 by done.
  assert (Path.isAbsolute (ofSegments rs +:+ "/" +:+ Js.join "/" ds) = true) as -> by done.
  rewrite <- append_assoc, join_last_not_slash by done. rewrite append_assoc.
  cbn [negb].
  assert (Path.normalizeString (ofSegments rs +:+ "/" +:+ Js.join "/" ds) false
          = Js.join "/" (rs ++ ds)) as ->.
  { unfold Path.normalizeString. f_equal. unfold ofSegments.
    rewrite slash_append, append_cons. cbn [Path.segments].
    rewrite decide_True by done. cbn [Path.normalizeSegments].
    rewrite bool_decide_eq_true_2 by done. cbn [orb].
    destruct rs as [|x rs].
    - rewrite append_nil_l, slash_append. cbn [Js.join Path.segments app].
      rewrite decide_True by done. cbn [Path.normalizeSegments].
      rewrite bool_decide_eq_true_2 by done. cbn [orb].
      rewrite segments_join by (by apply plain_noSlash || done).
      by rewrite normalizeSegments_plain.
    - rewrite slash_append, segments_join_app by (by apply plain_noSlash || done).
      rewrite segments_join by (by apply plain_noSlash || done).
      by rewrite normalizeSegments_plain. }
  rewrite bool_decide_eq_false_2; [reflexivity|].
  apply join_nonempty; [done|]. by destruct rs, ds.
Qed.

Lemma relative_not_absolute ds :
  Forall (λ s, plainName s = true) ds → ds ≠ [] →
  Path.isAbsolute (Js.join "/" ds) = false.
Proof.
  intros Hds Hne. destruct ds as [|x ds]; [done|].
  apply Forall_cons in Hds as [Hx _].
  apply plainName_inv in Hx as (Hx1 & _ & _ & Hx4).
  destruct x as [|c x]; [done|]. cbn [hasSlash] in Hx4.
  apply orb_false_iff in Hx4 as [Hc _]. apply bool_decide_eq_false in Hc.
  unfold Path.isAbsolute, Path.isSlashAt, Path.charAt.
  destruct ds as [|y ds]; [|rewrite join_cons2, append_cons];
    cbn [Js.join String.get]; apply bool_decide_eq_false; congruence.
Qed.

(** X13.  A canonical path inside a canonical workspace root is never
    turned away: the hook and the manual tool accept the root, every
    canonical absolute path below it, and every relative path of plain
    names, which they take relative to the root. *)
Theorem canonical_path_is_accepted (h : Host) rs ds :
  Forall (λ s, plainName s = true) rs → Forall (λ s, plainName s = true) ds →
  rootDirOf h = ofSegments rs →
  hookAccepts h (ofSegments (rs ++ ds)) = true ∧
  toolAccepts h (ofSegments (rs ++ ds)) = true ∧
  (ds ≠ [] →
     absolutePathOf h (Js.join "/" ds) = ofSegments (rs ++ ds) ∧
     hookAccepts h (Js.join "/" ds) = true ∧
     toolAccepts h (Js.join "/" ds) = true).
Proof.
  intros Hrs Hds Hroot.
  assert (Forall (λ s, plainName s = true) (rs ++ ds)) as Hall by (by apply Forall_app).
  assert (Path.isAbsolute (ofSegments (rs ++ ds)) = true) as Habs by done.
  split_and!.
  - unfold hookAccepts, absolutePathOf. rewrite Habs, Hroot.
    rewrite !resolve_canonical by done. apply ofSegments_app_starts.
  - unfold toolAccepts. rewrite Habs, Hroot.
    rewrite !resolve_canonical by done. apply ofSegments_app_starts.
  - intros Hne. pose proof (relative_not_absolute ds Hds Hne) as Hrel.
    assert (absolutePathOf h (Js.join "/" ds) = ofSegments (rs ++ ds)) as Hjoin.
    { unfold absolutePathOf. rewrite Hrel, Hroot. by apply join_relative. }
    split_and!; [done| |].
    + unfold hookAccepts. rewrite Hjoin, Hroot.
      rewrite !resolve_canonical by done. apply ofSegments_app_starts.
    + unfold toolAccepts. rewrite Hrel, Hroot.
      rewrite resolve_canonical by done. rewrite join_relative by done.
      apply ofSegments_app_starts.
Qed.

Lemma canonical_path_is_accepted_witness :
  hookAccepts (sampleHost "/work" [] true) (ofSegments (["work"] ++ ["src"; "a.ts"])) = true.
Proof.
  destruct (canonical_path_is_accepted (sampleHost "/work" [] true)
              ["work"] ["src"; "a.ts"]) as [H _];
    [apply (bool_decide_unpack _); vm_compute; exact I
    | apply (bool_decide_unpack _); vm_compute; exact I
    | reflexivity
    | exact H].
Defined.

(** X14.  Reading a file at a canonical path below a canonical root, the
    hook resolves the fragments of the file's directory and of its
    ancestors up to the root (up to the directory below the root with
    [excludeRoot]), outermost first: the file's own name plays no part. *)
Theorem hook_fragments_canonical (h : Host) rs ds file :
  Forall (λ s, plainName s = true) rs → Forall (λ s, plainName s = true) ds →
  plainName file = true → rootDirOf h = ofSegments rs →
  hookFragments h (ofSegments (rs ++ ds ++ [file])) =
    omap (dirMatch (hostFs h) (config h))
      ((λ k, ofSegments (rs ++ take k ds))
         <$> seq (if excludeRoot (config h) then 1 else 0)
                 (if excludeRoot (config h) then length ds else S (length ds))).
Proof.
  intros Hrs Hds Hfile Hroot.
  assert (Forall (λ s, plainName s = true) (rs ++ ds)) as Hall by (by apply Forall_app).
  unfold hookFragments, absolutePathOf.
  assert (Path.isAbsolute (ofSegments (rs ++ ds ++ [file])) = true) as -> by done.
  rewrite Hroot, resolve_canonical by done.
  rewrite app_assoc, dirname_plain by done.
  unfold findAgentsFilesUp. rewrite findAgentsFilesUpTraced_eq. cbn [fst].
  rewrite testedDirs_canonical by done.
  by rewrite omap_rev, rev_involutive.
Qed.

Lemma hook_fragments_canonical_witness :
  hookFragments (sampleHost "/proj" ["/proj/AGENTS.md"; "/proj/src/AGENTS.md"] true)
    (ofSegments (["proj"] ++ ["src"; "api"] ++ ["x.ts"]))
  = ["/proj/src/AGENTS.md"].
Proof.
  rewrite (hook_fragments_canonical
             (sampleHost "/proj" ["/proj/AGENTS.md"; "/proj/src/AGENTS.md"] true)
             ["proj"] ["src"; "api"] "x.ts");
    [vm_compute; reflexivity
    | apply (bool_decide_unpack _); vm_compute; exact I
    | apply (bool_decide_unpack _); vm_compute; exact I
    | reflexivity | reflexivity].
Defined.

(** ** Loading the configuration, and the [context] command *)

Lemma probeDirectory_app fs d names more :
  (probeDirectory fs d (names ++ more)).1 =
    match (probeDirectory fs d names).1 with
    | Some p => Some p
    | None => (probeDirectory fs d more).1
    end.
Proof.
  induction names as [|g names IH]; [done|].
  rewrite <- app_comm_cons. cbn [probeDirectory].
  destruct (statSync fs (Path.join d g)) as [[|]|]; cbn [fst]; [done| |];
    destruct (probeDirectory fs d (names ++ more)) as [r t];
    destruct (probeDirectory fs d names) as [r' t']; cbn [fst] in *; exact IH.
Qed.

(** X15.  Whatever the user configures, the built-in filenames are the
    first candidates, in their order, and the user's follow: a directory
    that has a match among the built-in filenames has the same match
    under every user configuration, so that the user's filenames count
    only where no built-in filename names a regular file. *)
Theorem builtin_names_take_priority (user : option UserConfig) :
  AGENTS_FILENAMES `prefix_of` filenames (loadConfig user) ∧
  (∀ names u, user = Some u → userFilenames u = Some names →
     filenames (loadConfig user) = AGENTS_FILENAMES ++ names) ∧
  (∀ fs d p, dirMatch fs (loadConfig None) d = Some p →
     dirMatch fs (loadConfig user) d = Some p) ∧
  (∀ fs d, statSync fs (Path.join d "AGENTS.md") = Some true →
     dirMatch fs (loadConfig user) d = Some (Path.join d "AGENTS.md")).
Proof.
  assert (∃ names, filenames (loadConfig user) = AGENTS_FILENAMES ++ names) as [names Hn].
  { destruct user as [u|]; [|by exists []]. cbn [loadConfig filenames].
    destruct (userFilenames u) as [names|]; [by exists names | by exists []]. }
  assert (∀ fs d p, dirMatch fs (loadConfig None) d = Some p →
            dirMatch fs (loadConfig user) d = Some p) as Hsame.
  { intros fs d p. unfold dirMatch. rewrite Hn, probeDirectory_app.
    cbn [loadConfig filenames]. by intros ->. }
  split_and!.
  - rewrite Hn. by apply prefix_app_r.
  - intros names' u -> Hu. cbn [loadConfig filenames]. by rewrite Hu.
  - exact Hsame.
  - intros fs d Hreg. apply Hsame. unfold dirMatch.
    cbn [loadConfig filenames AGENTS_FILENAMES probeDirectory]. by rewrite Hreg.
Qed.

Lemma builtin_names_take_priority_witness :
  dirMatch (sampleFs ["/p/AGENTS.md"; "/p/NOTES.md"])
    (loadConfig (Some {| userEnabled := None; userMaxContextSize := None;
                         userFilenames := Some ["NOTES.md"];
                         userExcludeRoot := Some false |})) "/p"
  = Some (Path.join "/p" "AGENTS.md").
Proof.
  destruct (builtin_names_take_priority
              (Some {| userEnabled := None; userMaxContextSize := None;
                       userFilenames := Some ["NOTES.md"];
                       userExcludeRoot := Some false |})) as (_ & _ & _ & H).
  apply H. vm_compute. reflexivity.
Defined.

(** X16.  The [context] command answers that nothing was injected
    exactly when the session has no delivered path.  It looks the
    session up as the hook does: the session is tracked afterwards, a
    tracked session leaves the table as it was, and for a session that is
    not tracked a full table loses its oldest session. *)
Theorem context_command_reports (h : Host) sid m :
  ((contextCommand h sid m).1 = noContextMessage ↔ injectedOf sid m = []) ∧
  JsMap.has sid (contextCommand h sid m).2 = true ∧
  (JsMap.has sid m = true → (contextCommand h sid m).2 = m) ∧
  (NoDup (JsMap.keys m) → JsMap.size m = MAX_CACHED_SESSIONS →
   JsMap.has sid m = false →
   ∃ oldest, JsMap.firstKey m = Some oldest ∧
             JsMap.has oldest (contextCommand h sid m).2 = false).
Proof.
  assert ((contextCommand h sid m).2 = (getSessionCache sid m).1) as Htable.
  { unfold contextCommand. destruct (getSessionCache sid m) as [m' c].
    by destruct (length (injectedPaths c) =? 0). }
  split_and!.
  - rewrite <- (getSessionCache_injectedOf sid m).
    rewrite (injectedOf_get _ _ _ (getSessionCache_get sid m)).
    unfold contextCommand. destruct (getSessionCache sid m) as [m' c]. cbn [fst snd].
    destruct (injectedPaths c) as [|p l]; cbn [length Nat.eqb fst]; [done|].
    split; [|done]. intros Heq. apply (f_equal (Js.take 1)) in Heq.
    vm_compute in Heq. discriminate Heq.
  - rewrite Htable. apply getSessionCache_has.
  - intros Hhas. rewrite Htable. by apply getSessionCache_tracked.
  - intros Hnd Hfull Hhas. rewrite Htable.
    pose proof (getSessionCache_keys sid m Hnd) as Hkeys.
    rewrite Hhas, Hfull, Nat.leb_refl in Hkeys.
    rewrite firstKey_keys.
    destruct (JsMap.keys m) as [|oldest rest] eqn:Hk.
    { rewrite size_keys, Hk in Hfull. discriminate Hfull. }
    exists oldest. split; [done|]. cbn [tail] in Hkeys.
    apply has_false_iff. rewrite Hkeys. apply NoDup_cons in Hnd as [Hfresh _].
    apply has_false_iff in Hhas. rewrite Hk in Hhas.
    apply not_elem_of_cons in Hhas as [Hne _].
    intros [?|?%list_elem_of_singleton]%elem_of_app; congruence.
Qed.

Lemma context_command_reports_witness :
  ∃ oldest,
    JsMap.firstKey (cacheRun (OpGetOrCreate <$> sampleSessions 100)) = Some oldest ∧
    JsMap.has oldest
      (contextCommand (sampleHost "/proj" [] true) "new"
         (cacheRun (OpGetOrCreate <$> sampleSessions 100))).2 = false.
Proof.
  destruct (context_command_reports (sampleHost "/proj" [] true) "new"
              (cacheRun (OpGetOrCreate <$> sampleSessions 100))) as (_ & _ & _ & H).
  apply H; [apply (bool_decide_unpack _); vm_compute; exact I
           | vm_compute; reflexivity | vm_compute; reflexivity].
Defined.

(** ** The older revision *)

Lemma older_getSessionCache_keys sid m :
  JsMap.keys (Older.getSessionCache sid m).1 =
    if JsMap.has sid m then JsMap.keys m else JsMap.keys m ++ [sid].
Proof.
  unfold Older.getSessionCache. cbn [fst].
  destruct (JsMap.has sid m) eqn:Hhas; cbn [negb]; [done|].
  apply keys_set_new. by apply has_false_iff.
Qed.

(** X17.  The older revision of [getSessionCache] never evicts: after
    lookups of distinct identifiers all of them are tracked, in the order
    of the lookups, however many they are. *)
Theorem older_cache_is_unbounded (ids : list string) :
  NoDup ids →
  JsMap.keys (foldl (λ m sid, (Older.getSessionCache sid m).1) [] ids) = ids ∧
  JsMap.size (foldl (λ m sid, (Older.getSessionCache sid m).1) [] ids) = length ids.
Proof.
  intros Hnd.
  assert (∀ m, NoDup (JsMap.keys m ++ ids) →
            JsMap.keys (foldl (λ m sid, (Older.getSessionCache sid m).1) m ids)
            = JsMap.keys m ++ ids) as Hgen.
  { clear Hnd. induction ids as [|sid ids IH]; intros m Hm.
    - by rewrite app_nil_r.
    - cbn [foldl]. rewrite IH; rewrite older_getSessionCache_keys.
      + assert (JsMap.has sid m = false) as ->.
        { apply has_false_iff. apply NoDup_app in Hm as (_ & Hdis & _).
          intros Hin. apply (Hdis _ Hin). by left. }
        by rewrite <- app_assoc.
      + assert (JsMap.has sid m = false) as ->.
        { apply has_false_iff. apply NoDup_app in Hm as (_ & Hdis & _).
          intros Hin. apply (Hdis _ Hin). by left. }
        by rewrite <- app_assoc. }
  specialize (Hgen [] Hnd). split; [done|]. by rewrite size_keys, Hgen.
Qed.

Lemma older_cache_is_unbounded_witness :
  JsMap.size (foldl (λ m sid, (Older.getSessionCache sid m).1) [] (sampleSessions 101))
  = length (sampleSessions 101).
Proof.
  apply (older_cache_is_unbounded (sampleSessions 101)).
  apply (bool_decide_unpack _). vm_compute. exact I.
Defined.

Lemma older_truncateContent_long content maxSize :
  (0 ≤ maxSize)%Z → (maxSize < Z.of_nat (Js.length content))%Z →
  let t := Js.take (Z.to_nat maxSize) content in
  let L := Z.max (Js.lastIndexOf t paragraphBreak) (Js.lastIndexOf t ruleLine) in
  Older.truncateContent content maxSize =
    Js.take (if (4 * maxSize <? 5 * L)%Z then Z.to_nat L else Z.to_nat maxSize) content
      +:+ Older.truncationNote.
Proof.
  intros Hmax Hlong t L. unfold Older.truncateContent.
  destruct (Z.of_nat (Js.length content) <=? maxSize)%Z eqn:E; [lia|]. clear E.
  rewrite (slice0_nonneg content) by done. fold t. fold L.
  destruct (4 * maxSize <? 5 * L)%Z eqn:E; [|done].
  destruct (lastBoundary_spec t) as [[HL _]|(r & HL & _ & Hr & _)]; fold L in HL.
  - lia.
  - rewrite slice0_nonneg by lia. rewrite HL, Nat2Z.id. subst t.
    rewrite take_take; [done|]. rewrite length_take in Hr. lia.
Qed.

(** X18.  The older revision of [truncateContent] cuts a content where
    the current one does and appends a note of fixed length: a content of
    at most [maxSize] characters is returned unchanged, and a longer one
    as a prefix of the content followed by the note, the same prefix as
    in the current revision, so that the result has at most [maxSize]
    characters more than the note. *)
Theorem older_truncation_cuts_alike cwd content maxSize filePath rootDir :
  (0 ≤ maxSize)%Z →
  ((Z.of_nat (Js.length content) ≤ maxSize)%Z →
     Older.truncateContent content maxSize = content) ∧
  ((maxSize < Z.of_nat (Js.length content))%Z →
     ∃ kept rest,
       content = kept +:+ rest ∧
       Older.truncateContent content maxSize = kept +:+ Older.truncationNote ∧
       truncateContent cwd content maxSize filePath rootDir
         = kept +:+ truncationNote (Path.relative cwd rootDir filePath) ∧
       (Z.of_nat (Js.length (Older.truncateContent content maxSize))
        ≤ maxSize + Z.of_nat (Js.length Older.truncationNote))%Z).
Proof.
  intros Hmax. split.
  - intros Hshort. unfold Older.truncateContent.
    destruct (_ <=? _)%Z eqn:E; [done | lia].
  - intros Hlong.
    rewrite older_truncateContent_long, truncateContent_long by done.
    set (k := if _ : bool then _ else _).
    exists (Js.take k content), (Js.drop k content).
    split_and!; [by rewrite take_drop | done | done |].
    rewrite length_append, length_take.
    assert (k ≤ Z.to_nat maxSize) as Hk; [|lia].
    subst k. destruct (_ <? _)%Z eqn:E; [|done].
    destruct (lastBoundary_spec (Js.take (Z.to_nat maxSize) content))
      as [[HL _]|(r & HL & _ & Hr & _)]; rewrite HL in *; [lia|].
    rewrite length_take in Hr. lia.
Qed.

Lemma older_truncation_cuts_alike_witness :
  ∃ kept rest,
    "0123456789abcdefghij" = kept +:+ rest ∧
    Older.truncateContent "0123456789abcdefghij" 8 = kept +:+ Older.truncationNote ∧
    truncateContent "/" "0123456789abcdefghij" 8 "/proj/src/AGENTS.md" "/proj"
      = kept +:+ truncationNote "src/AGENTS.md".
Proof.
  destruct (older_truncation_cuts_alike "/" "0123456789abcdefghij" 8
              "/proj/src/AGENTS.md" "/proj") as [_ H]; [lia|].
  destruct H as (kept & rest & H0 & H1 & H2 & _); [vm_compute; reflexivity|].
  exists kept, rest. split_and!; assumption.
Defined.

Lemma older_probeDirectory_eq fs d names :
  (∀ f, f ∈ names → statSync fs (Path.join d f) ≠ Some false) →
  Older.probeDirectory fs d names = (probeDirectory fs d names).1.
Proof.
  induction names as [|g names IH]; [done|]. intros Hfiles.
  cbn [Older.probeDirectory probeDirectory]. unfold Older.existsSync.
  pose proof (Hfiles g ltac:(by left)) as Hg.
  destruct (statSync fs (Path.join d g)) as [[|]|]; [done|done|].
  rewrite IH by (intros f Hf; apply Hfiles; by right).
  by destruct (probeDirectory fs d names).
Qed.

Lemma filter_bool_cons {A} (P : A → bool) (x : A) (l : list A) :
  filter (λ d, Is_true (P d)) (x :: l) =
    (if P x then [x] else []) ++ filter (λ d, Is_true (P d)) l.
Proof.
  rewrite filter_cons. destruct (P x).
  - by rewrite decide_True.
  - by rewrite decide_False by (intros []).
Qed.

Lemma older_walkUp_visited fs rootDir config fuel current found :
  walkMeasure current < fuel →
  Older.walkUp fuel fs rootDir config current found =
    Some (found ++
          omap (λ d, Older.probeDirectory fs d (filenames config))
            (filter (λ d, Is_true (Older.isTested config rootDir d))
               (visitedDirs fuel rootDir current))).
Proof.
  revert current found.
  induction fuel as [|fuel IH]; intros current found Hfuel; [lia|].
  cbn [Older.walkUp visitedDirs]. rewrite filter_bool_cons.
  unfold walkStops, Older.isTested at 1.
  destruct (excludeRoot config
            && (bool_decide (current = rootDir) || negb (Js.startsWith current rootDir)))
    eqn:Hskip; cbn [negb app].
  - apply andb_true_iff in Hskip as [_ ->]. cbn [orb].
    by rewrite filter_nil, app_nil_r.
  - destruct (bool_decide (current = rootDir) || negb (Js.startsWith current rootDir)).
    + cbn [orb]. rewrite filter_nil. cbn [omap list_omap].
      destruct (Older.probeDirectory fs current (filenames config));
        by rewrite ?app_nil_r.
    + cbn [orb]. case_bool_decide as Hfix.
      * rewrite filter_nil. cbn [omap list_omap].
        destruct (Older.probeDirectory fs current (filenames config));
          by rewrite ?app_nil_r.
      * pose proof (dirname_measure current Hfix) as Hdec.
        rewrite IH by lia. cbn [omap list_omap].
        destruct (Older.probeDirectory fs current (filenames config));
          by rewrite <- ?app_assoc.
Qed.

(** X19.  The two revisions of [findAgentsFilesUp] return the same
    paths when no candidate in a directory of the walk names something
    that is not a regular file, and either [excludeRoot] is off or the
    walk never stands in a directory outside the root.  They differ
    outside the root: with [excludeRoot], for a start directory that does
    not begin with the root string, the older revision returns nothing. *)
Theorem older_resolver_agrees fs startDir rootDir config :
  ((∀ d f, d ∈ visitedDirs (walkBound startDir) rootDir startDir →
           f ∈ filenames config → statSync fs (Path.join d f) ≠ Some false) →
   (excludeRoot config = false ∨
    ∀ d, d ∈ visitedDirs (walkBound startDir) rootDir startDir →
         Js.startsWith d rootDir = true) →
   Older.findAgentsFilesUp fs startDir rootDir config
     = findAgentsFilesUp fs startDir rootDir config) ∧
  (excludeRoot config = true → Js.startsWith startDir rootDir = false →
   Older.findAgentsFilesUp fs startDir rootDir config = []).
Proof.
  pose proof (walkMeasure_bound startDir) as Hfuel.
  unfold Older.findAgentsFilesUp, Older.findAgentsFilesUpFuel.
  rewrite older_walkUp_visited by done. cbn [default from_option id app].
  split.
  - intros Hfiles Hinside. unfold findAgentsFilesUp.
    rewrite findAgentsFilesUpTraced_eq. cbn [fst]. f_equal. unfold testedDirs.
    induction (visitedDirs (walkBound startDir) rootDir startDir) as [|d dirs IH];
      [done|].
    assert (Older.isTested config rootDir d = isTested config rootDir d) as Htest.
    { unfold Older.isTested, isTested. destruct Hinside as [->|Hin];
        [cbn [andb negb]; by rewrite orb_true_r|].
      rewrite (Hin d) by (by left). cbn [negb]. rewrite orb_false_r.
      by destruct (excludeRoot config), (bool_decide (d = rootDir)). }
    rewrite !filter_bool_cons, Htest.
    assert (omap (λ d0, Older.probeDirectory fs d0 (filenames config))
              (filter (λ d0, Is_true (Older.isTested config rootDir d0)) dirs)
            = omap (dirMatch fs config)
                (filter (λ d0, Is_true (isTested config rootDir d0)) dirs)) as Hrest.
    { apply IH.
      - intros d' f Hd' Hf. apply Hfiles; [by right | done].
      - destruct Hinside as [?|Hin]; [by left|]. right. intros d' Hd'.
        apply Hin. by right. }
    destruct (isTested config rootDir d); cbn [app]; [|done].
    cbn [omap list_omap]. rewrite Hrest. unfold dirMatch at 1.
    rewrite older_probeDirectory_eq; [done|].
    intros f Hf. apply Hfiles; [by left | done].
  - intros Hex Hout. unfold walkBound. rewrite Nat.add_succ_r. cbn [visitedDirs].
    assert (walkStops rootDir startDir = true) as ->
      by (unfold walkStops; rewrite Hout; by rewrite orb_true_r).
    rewrite filter_bool_cons, filter_nil. unfold Older.isTested.
    rewrite Hex, Hout. cbn [negb andb]. by rewrite orb_true_r.
Qed.

Lemma older_resolver_agrees_witness :
  Older.findAgentsFilesUp (sampleFs ["/proj/AGENTS.md"; "/proj/src/AGENTS.md"])
    "/proj/src/api" "/proj" (sampleConfig false)
  = findAgentsFilesUp (sampleFs ["/proj/AGENTS.md"; "/proj/src/AGENTS.md"])
      "/proj/src/api" "/proj" (sampleConfig false) ∧
  Older.findAgentsFilesUp (sampleFs ["/etc/AGENTS.md"]) "/etc" "/proj" (sampleConfig true)
  = [].
Proof.
  split.
  - apply (older_resolver_agrees (sampleFs ["/proj/AGENTS.md"; "/proj/src/AGENTS.md"])
             "/proj/src/api" "/proj" (sampleConfig false)).
    + intros d f _ _. cbn [sampleFs statSync]. by case_bool_decide.
    + left. reflexivity.
  - apply (older_resolver_agrees (sampleFs ["/etc/AGENTS.md"]) "/etc" "/proj"
             (sampleConfig true)); [reflexivity | vm_compute; reflexivity].
Defined.

(** ** The manual tool, and the size of an injected fragment *)

Lemma join_head sep x l : ∃ rest, Js.join sep (x :: l) = x +:+ rest.
Proof.
  destruct l as [|y l]; [exists ""; by rewrite append_nil_r|].
  by exists (sep +:+ Js.join sep (y :: l)).
Qed.

(** X20.  The manual tool includes the root directory whatever
    [excludeRoot] says: for a canonical root and a canonical directory
    equal to it or below it, when a candidate names a regular file in the
    root, the tool returns, without an error flag, one text block that
    begins with the entry of the root's match. *)
Theorem manual_tool_includes_root (h : Host) rs ds f :
  Forall (λ s, plainName s = true) rs → Forall (λ s, plainName s = true) ds →
  rootDirOf h = ofSegments rs →
  f ∈ filenames (config h) →
  statSync (hostFs h) (Path.join (ofSegments rs) f) = Some true →
  ∃ p rest,
    dirMatch (hostFs h) (config h) (ofSegments rs) = Some p ∧
    injectContext h (ofSegments (rs ++ ds)) =
      {| toolContent := [TextContent (manualEntry h (ofSegments rs) p +:+ rest)];
         toolIsError := None |}.
Proof.
  intros Hrs Hds Hroot Hf Hreg.
  assert (Forall (λ s, plainName s = true) (rs ++ ds)) as Hall by (by apply Forall_app).
  destruct (probeDirectory_some (hostFs h) (ofSegments rs) (filenames (config h)) f Hf Hreg)
    as [p Hp].
  fold (dirMatch (hostFs h) (config h) (ofSegments rs)) in Hp.
  unfold injectContext.
  assert (Path.isAbsolute (ofSegments (rs ++ ds)) = true) as -> by done.
  rewrite Hroot, !resolve_canonical by done.
  rewrite ofSegments_app_starts. cbn [negb].
  unfold findAgentsFilesUp. rewrite findAgentsFilesUpTraced_eq. cbn [fst].
  rewrite testedDirs_canonical by done. rewrite omap_rev, rev_involutive.
  cbn [withRoot excludeRoot seq fmap list_fmap omap list_omap].
  rewrite take_0, app_nil_r.
  change (dirMatch (hostFs h) (withRoot (config h)) (ofSegments rs))
    with (dirMatch (hostFs h) (config h) (ofSegments rs)).
  rewrite Hp. cbn [length Nat.eqb fmap list_fmap].
  match goal with |- context [Js.join ?sep (?x :: ?l)] =>
    destruct (join_head sep x l) as [rest ->] end.
  by exists p, rest.
Qed.

Lemma manual_tool_includes_root_witness :
  ∃ p rest,
    dirMatch (sampleFs ["/proj/AGENTS.md"; "/proj/src/AGENTS.md"]) (sampleConfig true)
      (ofSegments ["proj"]) = Some p ∧
    injectContext (sampleHost "/proj" ["/proj/AGENTS.md"; "/proj/src/AGENTS.md"] true)
      (ofSegments (["proj"] ++ ["src"])) =
      {| toolContent :=
           [TextContent
              (manualEntry
                 (sampleHost "/proj" ["/proj/AGENTS.md"; "/proj/src/AGENTS.md"] true)
                 (ofSegments ["proj"]) p +:+ rest)];
         toolIsError := None |}.
Proof.
  apply (manual_tool_includes_root
           (sampleHost "/proj" ["/proj/AGENTS.md"; "/proj/src/AGENTS.md"] true)
           ["proj"] ["src"] "AGENTS.md");
    [apply (bool_decide_unpack _); vm_compute; exact I
    | apply (bool_decide_unpack _); vm_compute; exact I
    | reflexivity
    | apply (bool_decide_unpack _); vm_compute; exact I
    | vm_compute; reflexivity].
Defined.

(** X21.  The text injected for one fragment is bounded: it is no
    longer than its header, [maxContextSize] characters of content and
    the truncation note. *)
Theorem fragment_text_bounded (h : Host) resolvedRoot agentsPath :
  (0 ≤ maxContextSize (config h))%Z →
  (Z.of_nat (Js.length (fragmentText h resolvedRoot agentsPath))
   ≤ Z.of_nat (Js.length
                 (directoryHeader (Path.relative (cwd h) resolvedRoot agentsPath) ""))
     + maxContextSize (config h)
     + Z.of_nat (Js.length
                   (truncationNote (Path.relative (cwd h) resolvedRoot agentsPath))))%Z.
Proof.
  intros Hmax. unfold fragmentText.
  set (text := default "" (readFileSync (hostFs h) agentsPath)).
  set (rel := Path.relative (cwd h) resolvedRoot agentsPath).
  assert (∀ t, Js.length (directoryHeader rel t)
               = Js.length (directoryHeader rel "") + Js.length t) as Hhead.
  { intros t. unfold directoryHeader.
    rewrite !length_append. cbn [Js.length String.length]. unfold Js.length. lia. }
  rewrite Hhead.
  destruct (decide (Z.of_nat (Js.length text) ≤ maxContextSize (config h))%Z)
    as [Hshort|Hlong].
  - unfold truncateContent.
    destruct (Z.of_nat (Js.length text) <=? maxContextSize (config h))%Z eqn:E; lia.
  - rewrite truncateContent_long by lia. fold rel.
    set (k := if _ : bool then _ else _).
    rewrite length_append, length_take.
    assert (k ≤ Z.to_nat (maxContextSize (config h))) as Hk; [|lia].
    subst k. destruct (_ <? _)%Z eqn:E; [|done].
    destruct (lastBoundary_spec (Js.take (Z.to_nat (maxContextSize (config h))) text))
      as [[HL _]|(r & HL & _ & Hr & _)]; rewrite HL in *; [lia|].
    rewrite length_take in Hr. lia.
Qed.

Lemma fragment_text_bounded_witness :
  (Z.of_nat (Js.length
               (fragmentText (sampleHost "/proj" ["/proj/src/AGENTS.md"] true)
                  "/proj" "/proj/src/AGENTS.md"))
   ≤ Z.of_nat (Js.length (directoryHeader "src/AGENTS.md" "")) + MAX_CONTEXT_SIZE
     + Z.of_nat (Js.length (truncationNote "src/AGENTS.md")))%Z.
Proof.
  apply (fragment_text_bounded (sampleHost "/proj" ["/proj/src/AGENTS.md"] true)
           "/proj" "/proj/src/AGENTS.md").
  vm_compute. discriminate.
Defined.
